(** * cms-cli: the synchronisation core of [src/index.js]

    A shallow embedding of the event-driven core of the SleekCMS CLI and
    the properties of its synchronisation engine.

    How the program is modelled.

    - The module-level variables of [index.js] ([isShuttingDown],
      [pendingUpdates], [fileMap], [watcher]) are the fields of one
      [State] record, together with what the Node runtime and the outside
      world hold for the process: the live timers, the suspended [async]
      continuations, the clock, the disk, the calls issued through
      [apiClient] and the console.
    - Every function of the source is a state transformer.  An [async]
      function is cut at each [await] of a network call (and at the
      [await] of the workspace removal): the part before the [await]
      registers a [Task], the part after it runs when the event
      [Settle k o] delivers the outcome [o] of the awaited promise.
      Between the two any other event may run, exactly as in the event
      loop.
    - File-system calls ([readFile], [ensureDir], [outputFile], [move],
      [unlink], [remove]) act on the disk at the point where they are
      called.  The disk is the map of the files together with the set
      of the directories that exist without anything below them; a call
      fails for the reasons the two show: a missing source, an occupied
      destination, a directory where a file is to be written, a file
      where a directory is needed.  A call that throws is a
      [Completion], and [try_catch] is the [try]/[catch] around it.
    - What comes from libraries and not from [index.js] is a parameter:
      the string built-ins in [Builtins], the [path] functions, the
      workspace root and the text of AGENT.md in [Session]. *)

From Stdlib Require Import ZArith Ascii String.
From stdpp Require Import gmap strings list fin_maps.

Local Open Scope string_scope.
Local Open Scope list_scope.
Local Open Scope Z_scope.

(** ** JavaScript strings *)

(** The built-ins whose exact (Unicode) behaviour is outside [index.js]. *)
Class Builtins := {
  toLowerCase : string → string;   (* String.prototype.toLowerCase *)
  trim : string → string           (* String.prototype.trim *)
}.

(** [s.replace(/\\/g, "/")]: every backslash becomes a slash. *)
Fixpoint slashes (s : string) : string :=
  match s with
  | EmptyString => EmptyString
  | String c rest =>
      String (if Ascii.eqb c "\"%char then "/"%char else c) (slashes rest)
  end.

(** [s.split(sep)] for a one-character separator: never the empty list. *)
Fixpoint split (sep : ascii) (s : string) : list string :=
  match s with
  | EmptyString => [EmptyString]
  | String c rest =>
      if Ascii.eqb c sep then EmptyString :: split sep rest
      else match split sep rest with
           | seg :: segs => String c seg :: segs
           | [] => [String c EmptyString]
           end
  end.

(** A string is falsy exactly when it is empty. *)
Definition truthy (s : string) : bool :=
  match s with EmptyString => false | String _ _ => true end.

(** [a || b] where [a] is a string or [undefined]. *)
Definition or_else (a : option string) (b : string) : string :=
  match a with
  | Some s => if truthy s then s else b
  | None => b
  end.

(** ** initConfig: the environment name (lines 75-76) *)

Section InitConfig.
Context {builtins : Builtins}.

Definition tokenParts (AUTH_TOKEN : string) : list string :=
  split "-" (trim AUTH_TOKEN).

(** [(tokenParts[2] || options.env || "production").toLowerCase()];
    [options_env] is [None] when the option holds no value. *)
Definition ENV (AUTH_TOKEN : string) (options_env : option string) : string :=
  toLowerCase
    (or_else (tokenParts AUTH_TOKEN !! 2%nat)
       (or_else options_env "production")).
End InitConfig.

(** ASCII instances of the built-ins, for evaluating examples. *)
Definition ascii_lower (c : ascii) : ascii :=
  let n := nat_of_ascii c in
  if (Nat.leb 65 n && Nat.leb n 90)%bool then ascii_of_nat (n + 32) else c.

Fixpoint lower (s : string) : string :=
  match s with
  | EmptyString => EmptyString
  | String c rest => String (ascii_lower c) (lower rest)
  end.

Definition is_space (c : ascii) : bool :=
  let n := nat_of_ascii c in
  (Nat.eqb n 32 || (Nat.leb 9 n && Nat.leb n 13))%bool.

Fixpoint trim_start (s : string) : string :=
  match s with
  | String c rest => if is_space c then trim_start rest else s
  | EmptyString => EmptyString
  end.

Fixpoint trim_end (s : string) : string :=
  match s with
  | EmptyString => EmptyString
  | String c rest =>
      match trim_end rest with
      | EmptyString => if is_space c then EmptyString else String c EmptyString
      | kept => String c kept
      end
  end.

Definition ascii_builtins : Builtins :=
  {| toLowerCase := lower; trim := fun s => trim_end (trim_start s) |}.


(** ** Maps filled by a loop *)

(** The map after [for (x of l) m[key(x)] = val(x)]. *)
Definition fill `{Countable K} {V A : Type} (key : A → K) (val : A → V)
    (m : gmap K V) (l : list A) : gmap K V :=
  foldl (λ m x, <[key x := val x]> m) m l.

(** ** The data model *)

(** A record of the remote API: [{id, file_path, code, updated_at}].  A
    record that declares no path has the empty [file_path]; an [id] is
    falsy exactly when it is [0]. *)
Record Template := {
  id : Z;
  file_path : string;
  code : string;
  updated_at : string
}.

(** What is fixed for a session and comes from outside [index.js]. *)
Class Session := {
  VIEWS_DIR : string;                       (* the workspace root *)
  path_join : string → string → string;     (* path.join(a, b) *)
  path_relative : string → string → string; (* path.relative(from, to) *)
  agentMdContent : string                   (* require("./agent.js") *)
}.

Definition DEBOUNCE_DELAY : Z := 1000.

(** A timer armed by [setTimeout] at line 170, with what its callback
    closes over: [filePath], [relativePath] and the record [file] read
    from [fileMap] when the timer was armed. *)
Record Timer := {
  deadline : Z;
  t_filePath : string;
  t_relativePath : string;
  t_file : Template
}.

(** An [async] function suspended at an [await]. *)
Inductive Task :=
| AwaitPatch (filePath relativePath : string) (file : Template)
    (* timer callback, line 180: apiClient.patch *)
| AwaitRefresh (filePath relativePath : string)
    (* refreshFile, line 104: apiClient.get *)
| AwaitProvision (filePath relativePath : string)
    (* createSchema, line 197: apiClient.post *)
| AwaitCanonical (filePath relativePath : string)
    (* createSchema, line 199: apiClient.get *)
| AwaitRemove
    (* cleanupFiles, line 144: fs.remove *).

(** A request issued through [apiClient]. *)
Inductive Call :=
| GetAll                                        (* GET / *)
| Get (i : Z)                                   (* GET /{id} *)
| Patch (i : Z) (body_code body_updated_at : string)  (* PATCH /{id} *)
| PostCli (body_file_path : string).            (* POST /cli *)

(** The [data] of a fulfilled response. *)
Inductive Data :=
| DTemplate (t : Template)
| DSchema (tmpl_main_id : Z)
| DListing (l : list Template)
| DNone.

(** How an awaited promise settles. *)
Inductive Outcome :=
| Resolved (d : Data)
| Rejected (error : string).

(** One line written to the console. *)
Inductive Line :=
| LogFetching
| LogDownloaded (n : nat)
| ErrFetching (error : string)
| LogCleaning
| LogCleaned
| WarnSkipping (relativePath : string)
| LogUpdated (relativePath : string)
| ErrUpdating (error : string)
| LogRefreshed (relativePath : string)
| ErrRefreshing (error : string)
| LogRenamed (relativePath new_path : string)
| LogCreated (new_path : string)
| ErrCreating (error : string)
| LogShuttingDown.

Record State := {
  isShuttingDown : bool;
  exited : bool;                       (* process.exit was called *)
  fileMap : gmap string Template;
  pendingUpdates : gmap Z nat;         (* record id -> timer handle *)
  timers : gmap nat Timer;             (* runtime: armed, not yet run *)
  tasks : gmap nat Task;               (* runtime: suspended awaits *)
  fresh : nat;                         (* next handle / request number *)
  now : Z;                             (* clock, in ms *)
  disk : gmap string string;           (* files: absolute path -> content *)
  dirs : gset string;                  (* directories that may be empty *)
  unwatched : gset string;             (* watcher: paths taken out *)
  calls : list Call;                   (* requests issued, oldest first *)
  console : list Line                  (* lines written, oldest first *)
}.

(** Assignments to one module-level variable (or one part of the world). *)
Definition with_isShuttingDown (v : bool) (s : State) : State :=
  {| isShuttingDown := v; exited := exited s; fileMap := fileMap s;
     pendingUpdates := pendingUpdates s; timers := timers s;
     tasks := tasks s; fresh := fresh s; now := now s; disk := disk s;
     dirs := dirs s; unwatched := unwatched s; calls := calls s;
     console := console s |}.

Definition with_exited (v : bool) (s : State) : State :=
  {| isShuttingDown := isShuttingDown s; exited := v; fileMap := fileMap s;
     pendingUpdates := pendingUpdates s; timers := timers s;
     tasks := tasks s; fresh := fresh s; now := now s; disk := disk s;
     dirs := dirs s; unwatched := unwatched s; calls := calls s;
     console := console s |}.

Definition with_fileMap (v : gmap string Template) (s : State) : State :=
  {| isShuttingDown := isShuttingDown s; exited := exited s; fileMap := v;
     pendingUpdates := pendingUpdates s; timers := timers s;
     tasks := tasks s; fresh := fresh s; now := now s; disk := disk s;
     dirs := dirs s; unwatched := unwatched s; calls := calls s;
     console := console s |}.

Definition with_pendingUpdates (v : gmap Z nat) (s : State) : State :=
  {| isShuttingDown := isShuttingDown s; exited := exited s;
     fileMap := fileMap s; pendingUpdates := v; timers := timers s;
     tasks := tasks s; fresh := fresh s; now := now s; disk := disk s;
     dirs := dirs s; unwatched := unwatched s; calls := calls s;
     console := console s |}.

Definition with_timers (v : gmap nat Timer) (s : State) : State :=
  {| isShuttingDown := isShuttingDown s; exited := exited s;
     fileMap := fileMap s; pendingUpdates := pendingUpdates s; timers := v;
     tasks := tasks s; fresh := fresh s; now := now s; disk := disk s;
     dirs := dirs s; unwatched := unwatched s; calls := calls s;
     console := console s |}.

Definition with_tasks (v : gmap nat Task) (s : State) : State :=
  {| isShuttingDown := isShuttingDown s; exited := exited s;
     fileMap := fileMap s; pendingUpdates := pendingUpdates s;
     timers := timers s; tasks := v; fresh := fresh s; now := now s;
     disk := disk s; dirs := dirs s; unwatched := unwatched s;
     calls := calls s; console := console s |}.

Definition with_fresh (v : nat) (s : State) : State :=
  {| isShuttingDown := isShuttingDown s; exited := exited s;
     fileMap := fileMap s; pendingUpdates := pendingUpdates s;
     timers := timers s; tasks := tasks s; fresh := v; now := now s;
     disk := disk s; dirs := dirs s; unwatched := unwatched s;
     calls := calls s; console := console s |}.

Definition with_now (v : Z) (s : State) : State :=
  {| isShuttingDown := isShuttingDown s; exited := exited s;
     fileMap := fileMap s; pendingUpdates := pendingUpdates s;
     timers := timers s; tasks := tasks s; fresh := fresh s; now := v;
     disk := disk s; dirs := dirs s; unwatched := unwatched s;
     calls := calls s; console := console s |}.

Definition with_disk (v : gmap string string) (s : State) : State :=
  {| isShuttingDown := isShuttingDown s; exited := exited s;
     fileMap := fileMap s; pendingUpdates := pendingUpdates s;
     timers := timers s; tasks := tasks s; fresh := fresh s; now := now s;
     disk := v; dirs := dirs s; unwatched := unwatched s; calls := calls s;
     console := console s |}.

Definition with_dirs (v : gset string) (s : State) : State :=
  {| isShuttingDown := isShuttingDown s; exited := exited s;
     fileMap := fileMap s; pendingUpdates := pendingUpdates s;
     timers := timers s; tasks := tasks s; fresh := fresh s; now := now s;
     disk := disk s; dirs := v; unwatched := unwatched s; calls := calls s;
     console := console s |}.

Definition with_unwatched (v : gset string) (s : State) : State :=
  {| isShuttingDown := isShuttingDown s; exited := exited s;
     fileMap := fileMap s; pendingUpdates := pendingUpdates s;
     timers := timers s; tasks := tasks s; fresh := fresh s; now := now s;
     disk := disk s; dirs := dirs s; unwatched := v; calls := calls s;
     console := console s |}.

Definition with_calls (v : list Call) (s : State) : State :=
  {| isShuttingDown := isShuttingDown s; exited := exited s;
     fileMap := fileMap s; pendingUpdates := pendingUpdates s;
     timers := timers s; tasks := tasks s; fresh := fresh s; now := now s;
     disk := disk s; dirs := dirs s; unwatched := unwatched s; calls := v;
     console := console s |}.

Definition with_console (v : list Line) (s : State) : State :=
  {| isShuttingDown := isShuttingDown s; exited := exited s;
     fileMap := fileMap s; pendingUpdates := pendingUpdates s;
     timers := timers s; tasks := tasks s; fresh := fresh s; now := now s;
     disk := disk s; dirs := dirs s; unwatched := unwatched s;
     calls := calls s; console := v |}.

(** Statements in sequence, in the order of the source. *)
Notation "s |> f" := (f s) (at level 45, left associativity, only parsing).

(** ** Runtime and library services *)

(** [console.log], [console.warn], [console.error]. *)
Definition emit (l : Line) (s : State) : State :=
  with_console (console s ++ [l]) s.

(** [await apiClient.<verb>(...)]: the request goes out and the caller is
    suspended as task [fresh s]. *)
Definition request (c : Call) (t : Task) (s : State) : State :=
  s |> with_calls (calls s ++ [c])
    |> with_tasks (<[fresh s := t]> (tasks s))
    |> with_fresh (S (fresh s)).

(** [await] of a promise that is not a request. *)
Definition suspend (t : Task) (s : State) : State :=
  s |> with_tasks (<[fresh s := t]> (tasks s))
    |> with_fresh (S (fresh s)).

(** ** Strings inside strings *)

(** [t] occurs in [s]. *)
Fixpoint contains (t s : string) : bool :=
  (String.prefix t s ||
   match s with
   | EmptyString => false
   | String _ rest => contains t rest
   end)%bool.

(** [s] ends with [t]. *)
Fixpoint ends_with (t s : string) : bool :=
  (String.eqb s t ||
   match s with
   | EmptyString => false
   | String _ rest => ends_with t rest
   end)%bool.

(** ** The file system *)

(** The disk is that of a POSIX system: paths are absolute and
    normalised, as [path.join] and [path.resolve] return them, with [/]
    between the names (the root is the empty path), and two paths name
    the same thing only when they are equal.  A path names at most one
    thing: a file (a key of the map of files) or a directory.  A
    directory exists when something lies below it, or when it is in the
    set [ds] of the directories that were made, or left behind when
    what they held was taken away.  Calls fail for what the files and
    the directories show, not for want of permissions or space. *)

(** [p] is [root] or lies below it. *)
Definition inside (root p : string) : bool :=
  (String.eqb p root || String.prefix (root +:+ "/") p)%bool.

(** [p] lies below [root]. *)
Definition below (root p : string) : bool :=
  String.prefix (root +:+ "/") p.

(** [path.dirname(p)]: what precedes the last separator of [p]. *)
Fixpoint dirname (p : string) : string :=
  match p with
  | EmptyString => EmptyString
  | String c rest =>
      if contains "/" rest then String c (dirname rest) else EmptyString
  end.

(** [p] is a directory on the disk of the files [d] and the directories
    [ds]. *)
Definition is_directory (d : gmap string string) (ds : gset string)
    (p : string) : bool :=
  (bool_decide (set_Exists (λ q, inside p q = true) ds)
   || bool_decide (set_Exists (λ q, below p q = true) (dom d)))%bool.

(** A parent of [p] is a file. *)
Definition under_file (d : gmap string string) (p : string) : bool :=
  bool_decide (set_Exists (λ q, below q p = true) (dom d)).

(** A file can be written at [p]: [p] names no directory (it does not
    end in a separator and no directory is there) and no parent of [p]
    is a file.  Whether a file is there already does not matter. *)
Definition writable (d : gmap string string) (ds : gset string)
    (p : string) : bool :=
  (negb (ends_with "/" p) && negb (is_directory d ds p)
   && negb (under_file d p))%bool.

(** How a call that may throw completes: normally, or by throwing
    [error] in the state it has reached. *)
Inductive Completion :=
| Normal (s : State)
| Thrown (error : string) (s : State).

(** The state in which a call ends, either way. *)
Definition reached (c : Completion) : State :=
  match c with
  | Normal s => s
  | Thrown _ s => s
  end.

(** The next statement runs when nothing was thrown. *)
Definition and_then (c : Completion) (f : State → Completion) : Completion :=
  match c with
  | Normal s => f s
  | Thrown error s => Thrown error s
  end.

Notation "c ;> f" := (and_then c f)
  (at level 45, left associativity, only parsing).

(** A statement that cannot throw. *)
Definition just (f : State → State) (s : State) : Completion := Normal (f s).

(** [try { c } catch (error) { handler }]. *)
Definition try_catch (c : Completion) (handler : string → State → State)
    : State :=
  match c with
  | Normal s => s
  | Thrown error s => handler error s
  end.

(** The file at [p] holds [content]: what a write that succeeds does. *)
Definition write (p content : string) (s : State) : State :=
  with_disk (<[p := content]> (disk s)) s.

(** The directory of [p] stays when [p] is taken away. *)
Definition left_behind (p : string) (s : State) : State :=
  with_dirs (dirs s ∪ {[dirname p]}) s.

(** Why no file can be written at [p]. *)
Definition write_error (d : gmap string string) (p : string) : string :=
  if under_file d p then "ENOTDIR" else "EISDIR".

(** [fs.ensureDir(p)]: throws when [p] or a parent of [p] is a file. *)
Definition ensureDir (p : string) (s : State) : Completion :=
  match disk s !! p with
  | Some _ => Thrown "EEXIST" s
  | None =>
      if under_file (disk s) p then Thrown "ENOTDIR" s
      else Normal (with_dirs (dirs s ∪ {[p]}) s)
  end.

(** [fs.outputFile(p, content)]: the parents of [p] are made as needed
    and the file is written; throws when no file can be written at
    [p]. *)
Definition outputFile (p content : string) (s : State) : Completion :=
  if writable (disk s) (dirs s) p then Normal (write p content s)
  else Thrown (write_error (disk s) p) s.

(** [fs.unlink(p)]: the file is gone.  Unlinking a file that is not
    there leaves the disk as it is. *)
Definition unlink (p : string) (s : State) : State :=
  match disk s !! p with
  | Some _ => left_behind p s
  | None => s
  end |> (λ s, with_disk (delete p (disk s)) s).

(** [fs.move(src, dest)] without [overwrite]: throws when there is no
    file at [src], when there is a file at [dest], and when no file can
    be written at [dest]. *)
Definition move (src dest : string) (s : State) : Completion :=
  match disk s !! src with
  | None => Thrown "ENOENT" s
  | Some bytes =>
      match disk s !! dest with
      | Some _ => Thrown "dest already exists." s
      | None =>
          if writable (disk s) (dirs s) dest then
            Normal (s |> left_behind src
                      |> with_disk (<[dest := bytes]> (delete src (disk s))))
          else Thrown (write_error (disk s) dest) s
      end
  end.

(** [fs.remove(root)]: the files that are left. *)
Definition remove (root : string) (d : gmap string string)
    : gmap string string :=
  filter (λ kv, inside root kv.1 = false) d.

(** [fs.remove(root)]: the directories that are left. *)
Definition remove_dirs (root : string) (s : State) : gset string :=
  filter (λ q, inside root q = false)
    (if (bool_decide (is_Some (disk s !! root))
         || is_directory (disk s) (dirs s) root)%bool
     then dirs (left_behind root s) else dirs s).

(** ** The watcher *)

(** [watcher.unwatch(p)] and [watcher.add(p)] on the watcher of
    [monitorFiles], which watches all of [VIEWS_DIR]. *)
Definition unwatch (p : string) (s : State) : State :=
  with_unwatched (unwatched s ∪ {[p]}) s.

Definition watcher_add (p : string) (s : State) : State :=
  with_unwatched (unwatched s ∖ {[p]}) s.


(** ** The functions of [index.js] *)

(** What the watcher, the runtime and the user can make happen. *)
Inductive Event :=
| Change (filePath : string)         (* watcher "change": scheduleUpdate *)
| Add (filePath : string)            (* watcher "add": createSchema *)
| Fire (h : nat)                     (* timer h is due and its callback runs *)
| Settle (k : nat) (o : Outcome)     (* the promise awaited by task k settles *)
| Interrupt                          (* SIGINT, SIGTERM or menu key x: handleExit *)
| Tick (ms : Z)                      (* ms milliseconds pass *)
| Save (filePath content : string).  (* an editor writes a file *)

Section Core.
Context {session : Session}.

(** [path.relative(VIEWS_DIR, filePath).replace(/\\/g, "/")]. *)
Definition relativePath_of (filePath : string) : string :=
  slashes (path_relative VIEWS_DIR filePath).

(** *** refreshFile (lines 101-112) *)

Definition refreshFile (filePath : string) (s : State) : State :=
  let relativePath := relativePath_of filePath in
  match fileMap s !! relativePath with
  | Some current =>
      request (Get (id current)) (AwaitRefresh filePath relativePath) s
  | None => emit (ErrRefreshing "TypeError") s
  end.

(** After [await apiClient.get(...)] (lines 105-111): the entry is
    replaced before the file is written, and whatever is thrown is
    caught and written out. *)
Definition refreshFile_resume (filePath relativePath : string)
    (o : Outcome) (s : State) : option State :=
  match o with
  | Resolved (DTemplate template) =>
      Some (try_catch
              (Normal s
               ;> just (λ s, with_fileMap
                               (<[relativePath := template]> (fileMap s)) s)
               ;> outputFile filePath (code template)
               ;> just (emit (LogRefreshed relativePath)))
              (λ error, emit (ErrRefreshing error)))
  | Resolved _ => None
  | Rejected error => Some (emit (ErrRefreshing error) s)
  end.

(** *** fetchFiles (lines 115-138) *)

(** The body of the [for] loop (lines 123-128). *)
Definition fetchFiles_body (file : Template) (s : State) : Completion :=
  if truthy (file_path file) then
    outputFile (path_join VIEWS_DIR (file_path file)) (code file) s
    ;> just (λ s, with_fileMap
                    (<[slashes (file_path file) := file]> (fileMap s)) s)
  else Normal s.

(** [for (const x of l) body]: the loop ends where the body throws. *)
Fixpoint for_of {A : Type} (body : A → State → Completion) (l : list A)
    (s : State) : Completion :=
  match l with
  | [] => Normal s
  | x :: rest => body x s ;> for_of body rest
  end.

(** [fetchFiles] runs before the watcher and the signal handlers exist,
    so nothing interleaves with it: it is one transformer, given how
    [GET /] settles.  Whatever is thrown inside the [try] ends it and is
    written out by the [catch] of line 135. *)
Definition fetchFiles (response : Outcome) (s : State) : option State :=
  let s := s |> emit LogFetching |> (λ s, with_calls (calls s ++ [GetAll]) s) in
  match response with
  | Resolved (DListing data) =>
      Some (try_catch
              (ensureDir VIEWS_DIR s
               ;> for_of fetchFiles_body data
               ;> just (emit (LogDownloaded (length data)))
               ;> outputFile (path_join VIEWS_DIR "AGENT.md") agentMdContent)
              (λ error, emit (ErrFetching error)))
  | Resolved _ => None
  | Rejected error => Some (emit (ErrFetching error) s)
  end.

(** *** cleanupFiles (lines 141-149) and handleExit (lines 298-307) *)

Definition cleanupFiles (s : State) : State :=
  s |> emit LogCleaning |> suspend AwaitRemove.

(** After [await fs.remove(VIEWS_DIR)]: the rest of [cleanupFiles], then
    [process.exit(0)] back in [handleExit].  On the disk of the model
    [fs.remove] cannot fail, so the [catch] of line 146 is never
    entered. *)
Definition cleanupFiles_resume (o : Outcome) (s : State) : option State :=
  match o with
  | Resolved DNone =>
      Some (s |> with_dirs (remove_dirs VIEWS_DIR s)
              |> (λ s, with_disk (remove VIEWS_DIR (disk s)) s)
              |> emit LogCleaned
              |> with_exited true)
  | _ => None
  end.

Definition handleExit (s : State) : State :=
  if isShuttingDown s then s
  else s |> with_isShuttingDown true |> emit LogShuttingDown |> cleanupFiles.

(** *** scheduleUpdate (lines 153-191) *)

(** [clearTimeout(pendingUpdates[file.id])] when the entry exists. *)
Definition clearPending (i : Z) (s : State) : State :=
  match pendingUpdates s !! i with
  | Some h => with_timers (delete h (timers s)) s
  | None => s
  end.

(** [pendingUpdates[file.id] = setTimeout(..., DEBOUNCE_DELAY)]. *)
Definition setTimeout (filePath relativePath : string) (file : Template)
    (s : State) : State :=
  s |> with_timers (<[fresh s := {| deadline := now s + DEBOUNCE_DELAY;
                                    t_filePath := filePath;
                                    t_relativePath := relativePath;
                                    t_file := file |}]> (timers s))
    |> with_pendingUpdates (<[id file := fresh s]> (pendingUpdates s))
    |> with_fresh (S (fresh s)).

Definition scheduleUpdate (filePath : string) (s : State) : State :=
  if isShuttingDown s then s
  else
    let relativePath := relativePath_of filePath in
    match fileMap s !! relativePath with
    | Some file =>
        if Z.eqb (id file) 0 then emit (WarnSkipping relativePath) s
        else s |> clearPending (id file)
               |> setTimeout filePath relativePath file
    | None => emit (WarnSkipping relativePath) s
    end.

(** [delete pendingUpdates[file.id]]. *)
Definition forget (i : Z) (s : State) : State :=
  with_pendingUpdates (delete i (pendingUpdates s)) s.

(** The body sent by line 180: [code || "foo bar"]. *)
Definition patch_code (code : string) : string :=
  if truthy code then code else "foo bar".

(** The callback of timer [h] (lines 170-190) up to its first network
    [await]; [tm] is what it closes over. *)
Definition onTimeout (h : nat) (tm : Timer) (s : State) : State :=
  let s := with_timers (delete h (timers s)) s in
  let file := t_file tm in
  match disk s !! t_filePath tm with
  | Some read =>
      if String.eqb read (code file) then forget (id file) s
      else request (Patch (id file) (patch_code read) (updated_at file))
             (AwaitPatch (t_filePath tm) (t_relativePath tm) file) s
  | None =>
      s |> emit (ErrUpdating "ENOENT") |> refreshFile (t_filePath tm)
  end.

(** The callback after [await apiClient.patch(...)] (lines 181-189). *)
Definition onTimeout_resume (filePath relativePath : string)
    (file : Template) (o : Outcome) (s : State) : option State :=
  match o with
  | Resolved (DTemplate data) =>
      Some (s |> with_fileMap (<[relativePath := data]> (fileMap s))
              |> emit (LogUpdated relativePath)
              |> forget (id file))
  | Resolved _ => None
  | Rejected error =>
      Some (s |> emit (ErrUpdating error) |> refreshFile filePath)
  end.

(** The timer armed at line 170 when the clock shows [t]. *)
Definition armed (t : Z) (filePath : string) (file : Template) : Timer :=
  {| deadline := t + DEBOUNCE_DELAY; t_filePath := filePath;
     t_relativePath := relativePath_of filePath; t_file := file |}.

(** *** createSchema (lines 193-217) *)

Definition createSchema (filePath : string) (s : State) : State :=
  if isShuttingDown s then s
  else
    let relativePath := relativePath_of filePath in
    request (PostCli relativePath) (AwaitProvision filePath relativePath) s.

(** The [catch] block (lines 212-216).  Unlinking a file that is not
    there leaves the disk as it is. *)
Definition createSchema_catch (filePath error : string) (s : State) : State :=
  s |> emit (ErrCreating error) |> unlink filePath.

(** After [await apiClient.post("/cli", ...)]. *)
Definition createSchema_provisioned (filePath relativePath : string)
    (o : Outcome) (s : State) : option State :=
  match o with
  | Resolved (DSchema tmpl_main_id) =>
      Some (request (Get tmpl_main_id)
              (AwaitCanonical filePath relativePath) s)
  | Resolved _ => None
  | Rejected error => Some (createSchema_catch filePath error s)
  end.

(** Lines 210-211. *)
Definition createSchema_record (template : Template) (s : State) : State :=
  s |> with_fileMap (<[slashes (file_path template) := template]> (fileMap s))
    |> emit (LogCreated (file_path template)).

(** Lines 202-208: the file is renamed. *)
Definition createSchema_rename (filePath relativePath : string)
    (template : Template) (s : State) : Completion :=
  let oldPath := filePath in
  let newPath := path_join VIEWS_DIR (file_path template) in
  Normal s
  ;> just (unwatch newPath)
  ;> move oldPath newPath
  ;> just (watcher_add newPath)
  ;> just (emit (LogRenamed relativePath (file_path template))).

(** After [await apiClient.get(`/${schema.tmpl_main_id}`)]. *)
Definition createSchema_resume (filePath relativePath : string)
    (o : Outcome) (s : State) : option State :=
  match o with
  | Resolved (DTemplate template) =>
      Some (try_catch
              ((if String.eqb relativePath (file_path template)
                then Normal s
                else createSchema_rename filePath relativePath template s)
               ;> just (createSchema_record template))
              (createSchema_catch filePath))
  | Resolved _ => None
  | Rejected error => Some (createSchema_catch filePath error s)
  end.

(** *** The watcher of monitorFiles (lines 220-228) *)


(** *** The event loop *)

(** Task [t] continues with the outcome of what it awaited. *)
Definition resume (t : Task) (o : Outcome) (s : State) : option State :=
  match t with
  | AwaitPatch filePath relativePath file =>
      onTimeout_resume filePath relativePath file o s
  | AwaitRefresh filePath relativePath =>
      refreshFile_resume filePath relativePath o s
  | AwaitProvision filePath relativePath =>
      createSchema_provisioned filePath relativePath o s
  | AwaitCanonical filePath relativePath =>
      createSchema_resume filePath relativePath o s
  | AwaitRemove => cleanupFiles_resume o s
  end.

(** One turn of the event loop; [None] when the event cannot happen in
    [s] (a timer that is not armed or not due, a promise nobody awaits,
    an outcome of the wrong shape, time running backwards).  Once the
    process has exited nothing of the program runs any more. *)
Definition step (s : State) (e : Event) : option State :=
  match e with
  | Change filePath =>
      if exited s then Some s else Some (scheduleUpdate filePath s)
  | Add filePath =>
      if exited s then Some s else Some (createSchema filePath s)
  | Fire h =>
      if exited s then Some s
      else
        match timers s !! h with
        | Some tm =>
            if bool_decide (deadline tm ≤ now s)
            then Some (onTimeout h tm s) else None
        | None => None
        end
  | Settle k o =>
      if exited s then Some s
      else
        match tasks s !! k with
        | Some t => resume t o (with_tasks (delete k (tasks s)) s)
        | None => None
        end
  | Interrupt => if exited s then Some s else Some (handleExit s)
  | Tick ms =>
      if bool_decide (0 ≤ ms) then Some (with_now (now s + ms) s) else None
  | Save filePath content => Some (write filePath content s)
  end.

Fixpoint run (s : State) (es : list Event) : option State :=
  match es with
  | [] => Some s
  | e :: es' =>
      match step s e with
      | Some s' => run s' es'
      | None => None
      end
  end.

(** The state in which [main] starts, on a disk of the files [d] and the
    directories [ds]. *)
Definition boot (d : gmap string string) (ds : gset string) : State :=
  {| isShuttingDown := false; exited := false; fileMap := ∅;
     pendingUpdates := ∅; timers := ∅; tasks := ∅; fresh := 0%nat;
     now := 0; disk := d; dirs := ds; unwatched := ∅; calls := [];
     console := [] |}.
End Core.

(** ** Bursts of modified events *)

(** An editor saves [filePath] again and again: first the content
    [first], then, for every [(gap, content)] of [rest], [content] after
    [gap] more milliseconds.  The watcher reports each save. *)
Fixpoint burst (filePath first : string) (rest : list (Z * string))
    : list Event :=
  Save filePath first :: Change filePath ::
  match rest with
  | [] => []
  | (gap, content) :: rest' => Tick gap :: burst filePath content rest'
  end.


(** What the timer callback sends for the content [read], given the
    record [file] it closes over: nothing when the content is the
    record's code. *)
Definition pushes (file : Template) (read : string) : list Call :=
  if String.eqb read (code file) then []
  else [Patch (id file) (patch_code read) (updated_at file)].


(** Handles are handed out in order: none from [fresh s] on is armed. *)
Definition handles_fresh (s : State) : Prop :=
  ∀ h, (fresh s ≤ h)%nat → timers s !! h = None.

(** What the runtime holds is consistent with [fileMap]: the relative
    path that a timer or a task carries is the one of its file, and a
    timer, a push and a refresh exist only for a path with an entry. *)
Definition coherent_task `{Session} (m : gmap string Template) (t : Task)
    : Prop :=
  match t with
  | AwaitPatch filePath relativePath _
  | AwaitRefresh filePath relativePath =>
      relativePath = relativePath_of filePath ∧ is_Some (m !! relativePath)
  | AwaitProvision filePath relativePath
  | AwaitCanonical filePath relativePath =>
      relativePath = relativePath_of filePath
  | AwaitRemove => True
  end.

Definition coherent `{Session} (s : State) : Prop :=
  (∀ h tm, timers s !! h = Some tm →
     t_relativePath tm = relativePath_of (t_filePath tm) ∧
     is_Some (fileMap s !! t_relativePath tm)) ∧
  (∀ k t, tasks s !! k = Some t → coherent_task (fileMap s) t).

(** The states of a session: [main] fetches the listing into [fileMap]
    and the workspace, then events happen. *)
Definition reachable `{Session} (s : State) : Prop :=
  ∃ d ds response s0 es,
    fetchFiles response (boot d ds) = Some s0 ∧ run s0 es = Some s.

(** A session for evaluating examples: the workspace is [/w] and every
    path used is a plain name or [dir/name], where [path.join] is
    concatenation and [path.relative] drops the root. *)
Definition drop_root (root p : string) : string :=
  if String.prefix (root +:+ "/") p
  then String.substring (S (String.length root))
         (String.length p - S (String.length root)) p
  else p.

Definition plain_session : Session :=
  {| VIEWS_DIR := "/w";
     path_join := λ a b, a +:+ "/" +:+ b;
     path_relative := drop_root;
     agentMdContent := "# EJS Template Editing Guide" |}.

(** ** A concrete session *)

Section Examples.
Local Existing Instance plain_session.

(** One remote record, and the same record as the server returns it
    after a push of the content [b]. *)
Definition page : Template :=
  {| id := 1; file_path := "a.ejs"; code := "a"; updated_at := "u0" |}.

Definition page_pushed : Template :=
  {| id := 1; file_path := "a.ejs"; code := "b"; updated_at := "u1" |}.

(** The session after [main] has fetched the listing [[page]] into an
    empty directory: [fileMap] holds [page] under [a.ejs], the disk
    holds [/w/a.ejs] and [/w/AGENT.md]. *)
Definition session : State :=
  default (boot ∅ ∅) (fetchFiles (Resolved (DListing [page])) (boot ∅ ∅)).

(** The session after the events [es]. *)
Definition after (es : list Event) : State :=
  default session (run session es).


(** The file is emptied. *)
Definition empty : list Event :=
  burst "/w/a.ejs" EmptyString [] ++ [Tick 1000; Fire 0%nat].

(** An edit is saved while the push of the previous edit is in flight,
    the push succeeds, and the user goes back to the pushed content:
    - timer 0 fires and pushes [b] (task 1);
    - the save of [c] arms timer 2, which closes over [page];
    - the push settles: [fileMap] now holds [page_pushed] and the entry
      of the id is deleted from [pendingUpdates];
    - the save of [b] arms timer 3 and does not cancel timer 2. *)
Definition overlap : list Event :=
  [ Save "/w/a.ejs" "b"; Change "/w/a.ejs"; Tick 1000; Fire 0%nat;
    Save "/w/a.ejs" "c"; Change "/w/a.ejs";
    Settle 1%nat (Resolved (DTemplate page_pushed));
    Tick 500; Save "/w/a.ejs" "b"; Change "/w/a.ejs";
    Tick 500 ].

(** The file is touched while the push of an edit is in flight, and the
    push succeeds:
    - timer 0 fires and pushes [b] (task 1);
    - the touch arms timer 2, which closes over [page];
    - the push settles: [fileMap] now holds [page_pushed], whose code is
      the content of the file;
    - timer 2 falls due. *)
Definition touched_in_flight : list Event :=
  [ Save "/w/a.ejs" "b"; Change "/w/a.ejs"; Tick 1000; Fire 0%nat;
    Change "/w/a.ejs";
    Settle 1%nat (Resolved (DTemplate page_pushed));
    Tick 1000 ].

(** The push of an edit fails, and so does the fetch that follows. *)
Definition refused : list Event :=
  [ Save "/w/a.ejs" "b"; Change "/w/a.ejs"; Tick 1000; Fire 0%nat;
    Settle 1%nat (Rejected "409");
    Settle 2%nat (Rejected "503") ].

(** The push of an edit fails, and a directory takes the place of the
    file before the fetch answers. *)
Definition replaced : State :=
  let s := after [ Save "/w/a.ejs" "b"; Change "/w/a.ejs"; Tick 1000;
                   Fire 0%nat; Settle 1%nat (Rejected "409") ] in
  s |> with_disk (delete "/w/a.ejs" (disk s))
    |> with_dirs (dirs s ∪ {["/w/a.ejs"]}).


(** A new file for which the server chooses another path. *)
Definition canonical : Template :=
  {| id := 7; file_path := "views/new.ejs"; code := EmptyString;
     updated_at := "u7" |}.










(** Two records whose paths differ only in the separator. *)
Definition listing : list Template :=
  [ {| id := 2; file_path := "x\y"; code := "q"; updated_at := "u2" |};
    {| id := 3; file_path := "x/y"; code := "r"; updated_at := "u3" |} ].

(** Two records of which one is to lie below the other. *)
Definition nested : list Template :=
  [ {| id := 5; file_path := "x"; code := "q"; updated_at := "u5" |};
    {| id := 6; file_path := "x/y"; code := "r"; updated_at := "u6" |} ].

(** A record stored under the name of the reference document. *)
Definition agent_listing : list Template :=
  [ {| id := 4; file_path := "AGENT.md"; code := "mine";
       updated_at := "u4" |} ].
End Examples.

(** ** Further notions for the properties of the core *)

(** The record declares a path: the test of line 123. *)
Definition declares (file : Template) : bool := truthy (file_path file).

(** A request that the engine may send: a push names a record (its id is
    not falsy) and carries some code. *)
Definition well_formed (c : Call) : Prop :=
  match c with
  | Patch i body_code _ => i ≠ 0 ∧ body_code ≠ EmptyString
  | _ => True
  end.

(** Every armed timer closes over a record that has an id. *)
Definition timers_have_ids (s : State) : Prop :=
  ∀ h tm, timers s !! h = Some tm → id (t_file tm) ≠ 0.

(** Every key of [fileMap] is in forward-slash form. *)
Definition keys_normalised (s : State) : Prop :=
  ∀ relativePath, is_Some (fileMap s !! relativePath) →
    slashes relativePath = relativePath.

(** ** initConfig: the base URL (lines 14-18, 77) *)

(** What a lookup in [API_BASE_URLS] can give: a URL of the table, or a
    property that every object inherits from [Object.prototype] (a
    function or an object, truthy, and no URL). *)
Inductive BaseUrl :=
| Url (u : string)
| Inherited.

Section BaseUrls.
(** [inherited key]: [Object.prototype] has a property named [key]. *)
Variable inherited : string → bool.

(** [API_BASE_URLS[key]], [None] for [undefined]. *)
Definition API_BASE_URLS (key : string) : option BaseUrl :=
  if String.eqb key "localhost"
  then Some (Url "http://localhost:9000/api/template")
  else if String.eqb key "development"
  then Some (Url "https://app.sleekcms.net/api/template")
  else if String.eqb key "production"
  then Some (Url "https://app.sleekcms.com/api/template")
  else if inherited key then Some Inherited
  else None.

(** Line 77: [API_BASE_URLS[ENV] || API_BASE_URLS.production]; every
    value that a lookup finds is truthy. *)
Definition API_BASE_URL (ENV : string) : BaseUrl :=
  match API_BASE_URLS ENV with
  | Some found => found
  | None => default Inherited (API_BASE_URLS "production")
  end.
End BaseUrls.

(** ** showEditorMenu (lines 241-295) *)

Record Editor := {
  key : string;
  name : string;
  cmd : string
}.

(** What the menu leads to. *)
Inductive Menu :=
| NoMenu                 (* no editor found: nothing is asked *)
| Quit                   (* handleExit *)
| Launch (e : Editor)    (* spawn(e.cmd, [VIEWS_DIR]) *)
| Watch.                 (* nothing is opened *)

Section EditorMenu.
Context {builtins : Builtins}.
(** [commandExists(cmd)]. *)
Variable commandExists : string → bool.

(** Lines 242-249. *)
Definition editors : list Editor :=
  (if commandExists "code"
   then [{| key := "1"; name := "VS Code"; cmd := "code" |}] else [])
  ++ (if commandExists "cursor"
      then [{| key := "2"; name := "Cursor"; cmd := "cursor" |}] else []).

(** Lines 251-294, for the line [answer] typed at the prompt. *)
Definition showEditorMenu (answer : string) : Menu :=
  match editors with
  | [] => NoMenu
  | _ =>
      if String.eqb (toLowerCase (trim answer)) "x" then Quit
      else
        match find (λ e, String.eqb (key e) (trim answer)) editors with
        | Some selected => Launch selected
        | None => Watch
        end
  end.
End EditorMenu.

(** ** More states of the concrete session *)

Section MoreExamples.
Local Existing Instance plain_session.

(** The push of the content [b] is in flight (task 1). *)
Definition pushing : State :=
  after [Save "/w/a.ejs" "b"; Change "/w/a.ejs"; Tick 1000; Fire 0%nat].

(** The same, with a later edit waiting on timer 2. *)
Definition racing : State :=
  after [Save "/w/a.ejs" "b"; Change "/w/a.ejs"; Tick 1000; Fire 0%nat;
         Save "/w/a.ejs" "c"; Change "/w/a.ejs"].

(** The file of [page] is created anew and modified; the provisioning
    fails and deletes it while timer 1 is pending, which then falls
    due. *)
Definition gone : State :=
  after [Save "/w/a.ejs" "fresh"; Add "/w/a.ejs"; Change "/w/a.ejs";
         Settle 0%nat (Rejected "500"); Tick 1000].

(** A new file has been provisioned and its record is being fetched
    (task 1). *)
Definition provisioning : State :=
  after [Save "/w/new.ejs" "hello"; Add "/w/new.ejs";
         Settle 0%nat (Resolved (DSchema 7))].

(** The record of the new file when the server keeps its path. *)
Definition kept : Template :=
  {| id := 7; file_path := "new.ejs"; code := EmptyString;
     updated_at := "u7" |}.


(** A session of two records, with an edit of the first one waiting on
    timer 0. *)
Definition two_files : State :=
  default (boot ∅ ∅)
    (s0 ← fetchFiles (Resolved (DListing [page; canonical])) (boot ∅ ∅);
     run s0 [Save "/w/a.ejs" "b"; Change "/w/a.ejs"]).

(** The session of [listing]. *)
Definition separators : State :=
  default (boot ∅ ∅) (fetchFiles (Resolved (DListing listing)) (boot ∅ ∅)).

(** The session when the listing request fails, and some events in it
    that create no file. *)
Definition offline : State :=
  default (boot ∅ ∅) (fetchFiles (Rejected "ETIMEDOUT") (boot ∅ ∅)).

Definition idling : list Event :=
  [Save "/w/a.ejs" "b"; Change "/w/a.ejs"; Tick 5; Interrupt].

(** A disk with a file outside the workspace and one inside it. *)
Definition used_disk : gmap string string :=
  {[ "/home/notes.txt" := "keep"; "/w/stale.ejs" := "old" ]}.
End MoreExamples.

(** * Properties *)

(** ** The environment name *)

Section EnvName.
Context {builtins : Builtins}.

Lemma or_else_truthy (s b : string) : truthy s = true → or_else (Some s) b = s.
Proof. unfold or_else. by intros ->. Qed.

Lemma truthy_nonempty (s : string) : s ≠ EmptyString → truthy s = true.
Proof. by destruct s. Qed.

(** C10 (amended).  When the trimmed token has a third dash-separated
    segment and that segment is not empty, the environment name is that
    segment in lower case, whatever [--env] holds.  When the token has
    fewer than three segments, or its third segment is empty, the name
    is the value of [--env] in lower case, and [production] when
    [--env] holds no value or the empty string. *)
Theorem env_name_from_token (AUTH_TOKEN : string) (options_env : option string) :
  (∀ third, tokenParts AUTH_TOKEN !! 2%nat = Some third →
            third ≠ EmptyString →
            ENV AUTH_TOKEN options_env = toLowerCase third) ∧
  ((length (tokenParts AUTH_TOKEN) < 3)%nat ∨
   tokenParts AUTH_TOKEN !! 2%nat = Some EmptyString →
     ENV AUTH_TOKEN options_env
     = toLowerCase (or_else options_env "production")).
Proof.
  unfold ENV. split.
  - intros third -> Hne. by rewrite or_else_truthy by by apply truthy_nonempty.
  - intros [Hlen | ->]; [|done].
    by rewrite (lookup_ge_None_2 (tokenParts AUTH_TOKEN) 2) by lia.
Qed.
End EnvName.

Lemma env_name_from_token_witness :
  @ENV ascii_builtins "abc-x-DEV" (Some "localhost") = "dev" ∧
  @ENV ascii_builtins "abc-x" (Some "LOCALHOST") = "localhost".
Proof.
  split.
  - apply (proj1 (@env_name_from_token ascii_builtins "abc-x-DEV"
                    (Some "localhost")) "DEV"); [reflexivity | discriminate].
  - apply (proj2 (@env_name_from_token ascii_builtins "abc-x"
                    (Some "LOCALHOST"))).
    left. vm_compute. lia.
Defined.

(** C10 as stated fails: the token [a-b-] has three segments, the third
    one empty, and the name comes from [--env]. *)
Lemma env_name_counterexample :
  (3 ≤ length (@tokenParts ascii_builtins "a-b-"))%nat ∧
  @tokenParts ascii_builtins "a-b-" !! 2%nat = Some EmptyString ∧
  @ENV ascii_builtins "a-b-" (Some "development") = "development" ∧
  @ENV ascii_builtins "a-b-" (Some "development")
  ≠ @toLowerCase ascii_builtins EmptyString.
Proof. repeat split; [vm_compute; lia | discriminate]. Qed.

(** ** Maps filled by a loop *)

Section FoldInsert.
Context {K V A : Type} `{Countable K} (key : A → K) (val : A → V).

Lemma fill_lookup_notin (l : list A) (m : gmap K V) (q : K) :
  q ∉ (key <$> l) → fill key val m l !! q = m !! q.
Proof.
  revert m. induction l as [|x l IH]; intros m Hq; [done|].
  rewrite fmap_cons, not_elem_of_cons in Hq. destruct Hq as [Hx Hl].
  unfold fill in *. simpl. rewrite IH by done. by rewrite lookup_insert_ne.
Qed.

Lemma fill_lookup_in (l : list A) (m : gmap K V) (x : A) :
  NoDup (key <$> l) → x ∈ l → fill key val m l !! key x = Some (val x).
Proof.
  revert m. induction l as [|y l IH]; intros m Hnd Hx.
  - by apply elem_of_nil in Hx.
  - rewrite fmap_cons, NoDup_cons in Hnd. destruct Hnd as [Hy Hnd].
    apply elem_of_cons in Hx as [-> | Hx].
    + change (fill key val (<[key y := val y]> m) l !! key y = Some (val y)).
      rewrite fill_lookup_notin by done. apply lookup_insert_eq.
    + by apply IH.
Qed.

Lemma fill_dom (l : list A) (m : gmap K V) :
  dom (fill key val m l) = dom m ∪ list_to_set (key <$> l).
Proof.
  revert m. induction l as [|x l IH]; intros m.
  - simpl. by rewrite (right_id_L ∅ (∪)).
  - change (dom (fill key val (<[key x := val x]> m) l)
            = dom m ∪ list_to_set (key <$> x :: l)).
    rewrite IH, dom_insert_L, fmap_cons. simpl.
    rewrite (assoc_L (∪)). f_equal. apply (comm_L (∪)).
Qed.
End FoldInsert.

(** ** The synchronisation core *)

Section CoreProperties.
Context {session : Session}.

(** *** Library services *)

Lemma remove_lookup (root p : string) (d : gmap string string) :
  remove root d !! p = if inside root p then None else d !! p.
Proof.
  unfold remove. destruct (inside root p) eqn:Hin.
  - apply map_lookup_filter_None. right. intros x _. simpl. congruence.
  - destruct (d !! p) as [x|] eqn:Hp.
    + by apply map_lookup_filter_Some.
    + apply map_lookup_filter_None. by left.
Qed.

(** Writing a file makes directories of its parents and puts a file
    above what lies below it. *)
Lemma is_directory_insert (d : gmap string string) (ds : gset string)
    (p q c : string) :
  is_directory (<[q := c]> d) ds p = (is_directory d ds p || below p q)%bool.
Proof.
  unfold is_directory. rewrite <- orb_assoc. f_equal.
  apply eq_true_iff_eq. rewrite orb_true_iff, !bool_decide_eq_true.
  unfold set_Exists. setoid_rewrite dom_insert. split.
  - intros (x & [->%elem_of_singleton | Hx]%elem_of_union & Hb); [by right|].
    left. by exists x.
  - intros [(x & Hx & Hb) | Hb].
    + exists x. split; [|done]. apply elem_of_union. by right.
    + exists q. split; [|done]. apply elem_of_union. left.
      by apply elem_of_singleton.
Qed.

Lemma under_file_insert (d : gmap string string) (p q c : string) :
  under_file (<[q := c]> d) p = (under_file d p || below q p)%bool.
Proof.
  unfold under_file.
  apply eq_true_iff_eq. rewrite orb_true_iff, !bool_decide_eq_true.
  unfold set_Exists. setoid_rewrite dom_insert. split.
  - intros (x & [->%elem_of_singleton | Hx]%elem_of_union & Hb); [by right|].
    left. by exists x.
  - intros [(x & Hx & Hb) | Hb].
    + exists x. split; [|done]. apply elem_of_union. by right.
    + exists q. split; [|done]. apply elem_of_union. left.
      by apply elem_of_singleton.
Qed.

(** A location stays writable when a file is written at a location that
    is neither above nor below it. *)
Lemma writable_insert (d : gmap string string) (ds : gset string)
    (p q c : string) :
  writable d ds p = true → below p q = false → below q p = false →
  writable (<[q := c]> d) ds p = true.
Proof.
  unfold writable. intros Hw Hpq Hqp.
  by rewrite is_directory_insert, under_file_insert, Hpq, Hqp, !orb_false_r.
Qed.

Lemma writable_fill {A : Type} (key : A → string) (val : A → string)
    (l : list A) (d : gmap string string) (ds : gset string) (p : string) :
  writable d ds p = true →
  (∀ x, x ∈ l → below p (key x) = false ∧ below (key x) p = false) →
  writable (fill key val d l) ds p = true.
Proof.
  revert d. induction l as [|x l IH]; intros d Hw Hapart; [done|].
  apply (IH (<[key x := val x]> d)).
  - apply writable_insert; [done | |]; apply Hapart, elem_of_cons; by left.
  - intros y Hy. apply Hapart, elem_of_cons. by right.
Qed.

Lemma move_Normal (src dest bytes : string) (s : State) :
  disk s !! src = Some bytes → disk s !! dest = None →
  writable (disk s) (dirs s) dest = true →
  move src dest s
  = Normal (s |> left_behind src
              |> with_disk (<[dest := bytes]> (delete src (disk s)))).
Proof. unfold move. by intros -> -> ->. Qed.

(** *** The snapshot *)

(** The loop, record by record: it ends at the first record whose file
    cannot be written, with the records before it on the disk and in
    [fileMap]. *)
Lemma fetchFiles_loop_done (data : list Template) (s : State) :
  ∃ done,
    done `prefix_of` data ∧
    reached (for_of fetchFiles_body data s)
    = s |> with_disk
             (fill (λ f, path_join VIEWS_DIR (file_path f)) code (disk s)
                (filter (λ file, Is_true (declares file)) done))
        |> with_fileMap
             (fill (λ f, slashes (file_path f)) (λ f, f) (fileMap s)
                (filter (λ file, Is_true (declares file)) done)) ∧
    (∀ s', for_of fetchFiles_body data s = Normal s' → done = data).
Proof.
  revert s. induction data as [|file data IH]; intros s.
  - exists []. split; [done|]. split; [by destruct s | done].
  - simpl. unfold fetchFiles_body at 1 3. fold (declares file).
    destruct (declares file) eqn:Hd.
    + unfold outputFile.
      destruct (writable (disk s) (dirs s)
                  (path_join VIEWS_DIR (file_path file))) eqn:Hw.
      * simpl.
        destruct (IH (with_fileMap
                        (<[slashes (file_path file) := file]> (fileMap s))
                        (write (path_join VIEWS_DIR (file_path file))
                           (code file) s)))
          as (done & Hpre & Hshape & Hall).
        exists (file :: done). split; [by apply prefix_cons|].
        rewrite filter_cons_True by by rewrite Hd.
        split; [by rewrite Hshape|].
        intros s' Hs'. f_equal. by eapply Hall.
      * exists []. split; [apply prefix_nil|]. split; [by destruct s | done].
    + simpl. destruct (IH s) as (done & Hpre & Hshape & Hall).
      exists (file :: done). split; [by apply prefix_cons|].
      rewrite filter_cons_False by (rewrite Hd; intros []).
      split; [done|]. intros s' Hs'. f_equal. by eapply Hall.
Qed.

(** The loop when the file of every record can be written. *)
Lemma fetchFiles_loop (data : list Template) (s : State) :
  Forall (λ file, file_path file ≠ EmptyString) data →
  (∀ file, file ∈ data →
     writable (disk s) (dirs s) (path_join VIEWS_DIR (file_path file))
     = true) →
  (∀ f g, f ∈ data → g ∈ data →
     below (path_join VIEWS_DIR (file_path f))
       (path_join VIEWS_DIR (file_path g)) = false) →
  for_of fetchFiles_body data s
  = Normal (s |> with_disk
                   (fill (λ f, path_join VIEWS_DIR (file_path f)) code
                      (disk s) data)
              |> with_fileMap
                   (fill (λ f, slashes (file_path f)) (λ f, f)
                      (fileMap s) data)).
Proof.
  intros Hall. revert s.
  induction Hall as [|file data Hpath _ IH]; intros s Hw Hapart;
    [by destruct s|].
  simpl. unfold fetchFiles_body at 1.
  rewrite (truthy_nonempty _ Hpath). unfold outputFile.
  rewrite Hw by (apply elem_of_cons; by left). simpl.
  rewrite IH; [done | |].
  - intros g Hg. simpl. apply writable_insert.
    + apply Hw, elem_of_cons. by right.
    + apply Hapart; apply elem_of_cons; [by right | by left].
    + apply Hapart; apply elem_of_cons; [by left | by right].
  - intros f g Hf Hg. apply Hapart; apply elem_of_cons; by right.
Qed.

(** What [main] starts the event loop with. *)
Lemma fetchFiles_starts_idle (d : gmap string string) (ds : gset string)
    (response : Outcome) (s0 : State) :
  fetchFiles response (boot d ds) = Some s0 →
  timers s0 = ∅ ∧ tasks s0 = ∅ ∧ calls s0 = [GetAll] ∧ fresh s0 = 0%nat ∧
  pendingUpdates s0 = ∅ ∧ isShuttingDown s0 = false ∧ exited s0 = false.
Proof.
  unfold fetchFiles. intros Hfetch.
  destruct response as [[template | m | data | ] | error];
    try discriminate; injection Hfetch as <-; simpl; [|done].
  unfold ensureDir. simpl.
  destruct (d !! VIEWS_DIR); [done|].
  destruct (under_file d VIEWS_DIR); [done|]. simpl.
  match goal with
  | |- context [for_of fetchFiles_body data ?s] =>
      destruct (fetchFiles_loop_done data s) as (done & _ & Hshape & _);
      destruct (for_of fetchFiles_body data s) as [sl | error sl]
  end; simpl in Hshape; subst sl; simpl; [|done].
  unfold outputFile. simpl. by destruct (writable _ _ _).
Qed.

(** C7 (amended).  Take a listing of K records that all declare a path,
    whose normalised paths are pairwise distinct, whose locations under
    the workspace root are pairwise distinct and none of which is the
    location of AGENT.md, and a disk on which the snapshot can be
    written: the workspace root can be made (it is no file and no parent
    of it is one), a file can be written at every location and at that
    of AGENT.md (none of them ends in a separator or is a directory, no
    parent of them is a file), and none of these locations lies below
    another.  After [fetchFiles], started with an empty [fileMap], the
    location of every record holds the code of the record, [fileMap]
    maps the normalised path of every record to that record and has
    exactly K entries, and the files on the disk are the ones that were
    there, the K locations and AGENT.md. *)
Theorem snapshot_is_complete (d : gmap string string) (ds : gset string)
    (data : list Template) :
  Forall (λ file, file_path file ≠ EmptyString) data →
  NoDup ((λ file, slashes (file_path file)) <$> data) →
  NoDup ((λ file, path_join VIEWS_DIR (file_path file)) <$> data) →
  path_join VIEWS_DIR "AGENT.md"
    ∉ ((λ file, path_join VIEWS_DIR (file_path file)) <$> data) →
  d !! VIEWS_DIR = None → under_file d VIEWS_DIR = false →
  (∀ file, file ∈ data →
     writable d (ds ∪ {[VIEWS_DIR]}) (path_join VIEWS_DIR (file_path file))
     = true) →
  writable d (ds ∪ {[VIEWS_DIR]}) (path_join VIEWS_DIR "AGENT.md") = true →
  (∀ f g, f ∈ data → g ∈ data →
     below (path_join VIEWS_DIR (file_path f))
       (path_join VIEWS_DIR (file_path g)) = false) →
  (∀ file, file ∈ data →
     below (path_join VIEWS_DIR "AGENT.md")
       (path_join VIEWS_DIR (file_path file)) = false ∧
     below (path_join VIEWS_DIR (file_path file))
       (path_join VIEWS_DIR "AGENT.md") = false) →
  ∃ s, fetchFiles (Resolved (DListing data)) (boot d ds) = Some s ∧
    (∀ file, file ∈ data →
       disk s !! path_join VIEWS_DIR (file_path file) = Some (code file) ∧
       fileMap s !! slashes (file_path file) = Some file) ∧
    size (fileMap s) = length data ∧
    dom (disk s)
    = dom d
      ∪ list_to_set ((λ file, path_join VIEWS_DIR (file_path file)) <$> data)
      ∪ {[path_join VIEWS_DIR "AGENT.md"]} ∧
    calls s = [GetAll].
Proof.
  intros Hall Hkeys Hlocs Hagent Hroot Hparents Hw Hwagent Hapart Hagent_apart.
  unfold fetchFiles, ensureDir. simpl. rewrite Hroot, Hparents. simpl.
  rewrite fetchFiles_loop by done. simpl.
  unfold outputFile. simpl.
  rewrite (writable_fill (λ f, path_join VIEWS_DIR (file_path f)) code)
    by done.
  eexists. split; [done|]. simpl.
  split; [|split; [|split; [|done]]].
  - intros file Hin. split.
    + rewrite lookup_insert_ne.
      * by apply (fill_lookup_in (λ f, path_join VIEWS_DIR (file_path f)) code).
      * intros Heq. apply Hagent. rewrite Heq.
        by apply (list_elem_of_fmap_2 (λ f, path_join VIEWS_DIR (file_path f))).
    + by apply (fill_lookup_in (λ f, slashes (file_path f)) (λ f, f)).
  - rewrite <- size_dom, fill_dom, dom_empty_L, (left_id_L ∅ (∪)).
    rewrite size_list_to_set by done. by rewrite length_fmap.
  - rewrite dom_insert_L, fill_dom. apply (comm_L (∪)).
Qed.

(** *** Unknown paths *)

(** C5 (amended).  A modified event whose normalised relative path has
    no entry in [fileMap] issues no request and arms no timer, leaves
    [fileMap], the pending table, the suspended tasks and the disk as
    they are, and writes exactly one warning to the console, unless the
    shutdown flag is set (or the process has exited): then the event is
    dropped without a warning. *)
Theorem unknown_path_is_skipped (s : State) (filePath : string) :
  fileMap s !! relativePath_of filePath = None →
  ∃ s', step s (Change filePath) = Some s' ∧
    calls s' = calls s ∧ timers s' = timers s ∧
    pendingUpdates s' = pendingUpdates s ∧ tasks s' = tasks s ∧
    fileMap s' = fileMap s ∧ disk s' = disk s ∧
    console s' =
      if (exited s || isShuttingDown s)%bool then console s
      else console s ++ [WarnSkipping (relativePath_of filePath)].
Proof.
  intros Hnone. unfold step, scheduleUpdate.
  destruct (exited s); [by eexists|].
  destruct (isShuttingDown s); [by eexists|].
  rewrite Hnone. by eexists.
Qed.

(** *** Shutdown *)


(** *** Debounce *)

Lemma scheduleUpdate_known (s : State) (filePath : string) (file : Template) :
  isShuttingDown s = false →
  fileMap s !! relativePath_of filePath = Some file → id file ≠ 0 →
  scheduleUpdate filePath s
  = s |> clearPending (id file)
      |> setTimeout filePath (relativePath_of filePath) file.
Proof.
  intros Hflag Hfile Hid. unfold scheduleUpdate. rewrite Hflag, Hfile.
  by rewrite (proj2 (Z.eqb_neq _ _) Hid).
Qed.

Lemma clearPending_timers (s : State) (i : Z) (h : nat) :
  timers (clearPending i s) !! h
  = if decide (pendingUpdates s !! i = Some h) then None else timers s !! h.
Proof.
  unfold clearPending. destruct (pendingUpdates s !! i) as [h'|] eqn:Hp.
  - simpl. case_decide as Hd.
    + injection Hd as ->. apply lookup_delete_eq.
    + apply lookup_delete_ne. congruence.
  - by case_decide.
Qed.



Lemma clearPending_fresh (s : State) (i : Z) :
  fresh (clearPending i s) = fresh s.
Proof. unfold clearPending. by destruct (pendingUpdates s !! i). Qed.


Lemma clearPending_pendingUpdates (s : State) (i : Z) :
  pendingUpdates (clearPending i s) = pendingUpdates s.
Proof. unfold clearPending. by destruct (pendingUpdates s !! i). Qed.








Lemma fire_due (s : State) (h : nat) (tm : Timer) (read : string) :
  exited s = false → timers s !! h = Some tm → deadline tm ≤ now s →
  disk s !! t_filePath tm = Some read →
  ∃ s', step s (Fire h) = Some s' ∧
    calls s' = calls s ++ pushes (t_file tm) read ∧
    timers s' = delete h (timers s) ∧
    fileMap s' = fileMap s ∧ disk s' = disk s.
Proof.
  intros Hexit Htm Hdue Hread. unfold step. rewrite Hexit, Htm.
  rewrite bool_decide_eq_true_2 by done.
  unfold onTimeout, pushes. simpl. rewrite Hread.
  destruct (String.eqb read (code (t_file tm))); eexists; split; try done.
  simpl. by rewrite (right_id_L [] (++)).
Qed.


(** *** Handles are handed out in order *)

(** The ways in which a continuation that touches the disk can end. *)
Ltac fs_cases H :=
  unfold refreshFile_resume, createSchema_resume, createSchema_rename,
    createSchema_provisioned, cleanupFiles_resume, onTimeout_resume,
    try_catch, and_then, just, outputFile, move, createSchema_catch,
    createSchema_record, unlink, left_behind in H;
  simpl in H; simplify_eq;
  repeat (case_match; simplify_eq; simpl in * ).

Lemma handles_fresh_delete (s : State) (h : nat) :
  handles_fresh s → handles_fresh (with_timers (delete h (timers s)) s).
Proof.
  intros Hf h' Hh'. simpl. apply lookup_delete_None. right. by apply Hf.
Qed.

Lemma handles_fresh_later (s s' : State) :
  handles_fresh s → timers s' = timers s → (fresh s ≤ fresh s')%nat →
  handles_fresh s'.
Proof. intros Hf Ht Hle h Hh. rewrite Ht. apply Hf. lia. Qed.

Lemma handles_fresh_refreshFile (s : State) (filePath : string) :
  handles_fresh s → handles_fresh (refreshFile filePath s).
Proof.
  intros Hf. unfold refreshFile.
  destruct (fileMap s !! relativePath_of filePath);
    apply (handles_fresh_later s); simpl; try done; lia.
Qed.

Lemma handles_fresh_scheduleUpdate (s : State) (filePath : string) :
  handles_fresh s → handles_fresh (scheduleUpdate filePath s).
Proof.
  intros Hf. unfold scheduleUpdate.
  destruct (isShuttingDown s); [done|].
  destruct (fileMap s !! relativePath_of filePath) as [file|]; [|done].
  destruct (id file =? 0); [done|].
  intros h Hh. simpl in *. rewrite clearPending_fresh in Hh.
  rewrite clearPending_fresh, lookup_insert_ne by lia.
  rewrite clearPending_timers. case_decide; [done|]. apply Hf. lia.
Qed.

Lemma handles_fresh_resume (s s' : State) (t : Task) (o : Outcome) :
  handles_fresh s → resume t o s = Some s' → handles_fresh s'.
Proof.
  intros Hf Hres.
  destruct t as [fp rel file | fp rel | fp rel | fp rel | ];
    destruct o as [[template | m | l | ] | error];
    simpl in Hres; try discriminate; fs_cases Hres;
    try apply handles_fresh_refreshFile;
    match goal with
    | Hf : handles_fresh ?s0 |- _ =>
        apply (handles_fresh_later s0); simpl; try done; lia
    end.
Qed.

Lemma handles_fresh_step (s s' : State) (e : Event) :
  handles_fresh s → step s e = Some s' → handles_fresh s'.
Proof.
  intros Hf Hstep. unfold step in Hstep.
  destruct e as [fp | fp | h | k o | | ms | fp content].
  - destruct (exited s); injection Hstep as <-; [done|].
    by apply handles_fresh_scheduleUpdate.
  - destruct (exited s); injection Hstep as <-; [done|].
    unfold createSchema. destruct (isShuttingDown s); [done|].
    apply (handles_fresh_later s); simpl; try done; lia.
  - destruct (exited s); [by injection Hstep as <-|].
    destruct (timers s !! h) as [tm|]; [|done].
    case_bool_decide; [|done]. injection Hstep as <-.
    unfold onTimeout. simpl.
    destruct (disk s !! t_filePath tm) as [read|].
    + destruct (String.eqb read (code (t_file tm)));
        apply (handles_fresh_later (with_timers (delete h (timers s)) s));
        try (by apply handles_fresh_delete); simpl; try done; lia.
    + apply handles_fresh_refreshFile.
      apply (handles_fresh_later (with_timers (delete h (timers s)) s));
        try (by apply handles_fresh_delete); done.
  - destruct (exited s); [by injection Hstep as <-|].
    destruct (tasks s !! k) as [t|]; [|done].
    eapply handles_fresh_resume; [|exact Hstep].
  by apply (handles_fresh_later s).
  - destruct (exited s); injection Hstep as <-; [done|].
    unfold handleExit. destruct (isShuttingDown s); [done|].
    apply (handles_fresh_later s); simpl; try done; lia.
  - case_bool_decide; [|done]. injection Hstep as <-.
    by apply (handles_fresh_later s).
  - injection Hstep as <-. by apply (handles_fresh_later s).
Qed.

(** *** The runtime is consistent with fileMap *)

Lemma coherent_task_mono (m m' : gmap string Template) (t : Task) :
  (∀ rel, is_Some (m !! rel) → is_Some (m' !! rel)) →
  coherent_task m t → coherent_task m' t.
Proof.
  intros Hm.
  destruct t; simpl; try done; intros [-> Hsome]; (split; [done | by apply Hm]).
Qed.

Lemma coherent_update (s s' : State) :
  coherent s →
  (∀ rel, is_Some (fileMap s !! rel) → is_Some (fileMap s' !! rel)) →
  (∀ h tm, timers s' !! h = Some tm →
     timers s !! h = Some tm ∨
     (t_relativePath tm = relativePath_of (t_filePath tm) ∧
      is_Some (fileMap s' !! t_relativePath tm))) →
  (∀ k t, tasks s' !! k = Some t →
     tasks s !! k = Some t ∨ coherent_task (fileMap s') t) →
  coherent s'.
Proof.
  intros [Htimers Htasks] Hmap Ht Hk. split.
  - intros h tm Htm. destruct (Ht h tm Htm) as [Hold | Hnew]; [|done].
    destruct (Htimers h tm Hold). split; [done|]. by apply Hmap.
  - intros k t Htask. destruct (Hk k t Htask) as [Hold | Hnew]; [|done].
    eapply coherent_task_mono; [exact Hmap|]. by apply (Htasks k).
Qed.

Lemma is_Some_insert (m : gmap string Template) (k rel : string)
    (t : Template) :
  is_Some (m !! rel) → is_Some (<[k := t]> m !! rel).
Proof.
  intros Hsome. destruct (decide (k = rel)) as [-> | Hne].
  - rewrite lookup_insert_eq. by eexists.
  - by rewrite lookup_insert_ne.
Qed.

Lemma coherent_refreshFile (s : State) (filePath : string) :
  coherent s → coherent (refreshFile filePath s).
Proof.
  intros Hc. unfold refreshFile.
  destruct (fileMap s !! relativePath_of filePath) as [current|] eqn:Hcur.
  - apply (coherent_update s); simpl; try done; [by left|].
    intros k t [[<- <-] | [_ Hold]]%lookup_insert_Some; [|by left].
    right. simpl. by rewrite Hcur.
  - apply (coherent_update s); simpl; try done; by left.
Qed.

Lemma coherent_scheduleUpdate (s : State) (filePath : string) :
  coherent s → coherent (scheduleUpdate filePath s).
Proof.
  intros Hc. unfold scheduleUpdate.
  destruct (isShuttingDown s); [done|].
  destruct (fileMap s !! relativePath_of filePath) as [file|] eqn:Hfile;
    [|apply (coherent_update s); simpl; try done; by left].
  destruct (id file =? 0);
    [apply (coherent_update s); simpl; try done; by left|].
  apply (coherent_update s); simpl.
  - done.
  - unfold clearPending. by destruct (pendingUpdates s !! id file).
  - intros h tm [[<- <-] | [_ Hold]]%lookup_insert_Some.
    + right. simpl. split; [done|].
      unfold clearPending. destruct (pendingUpdates s !! id file);
        simpl; by rewrite Hfile.
    + left. rewrite clearPending_timers in Hold. by case_decide.
  - intros k t Htask. left.
    unfold clearPending in Htask. by destruct (pendingUpdates s !! id file).
Qed.

Lemma coherent_resume (s s' : State) (k : nat) (t : Task) (o : Outcome) :
  coherent s → tasks s !! k = Some t →
  resume t o (with_tasks (delete k (tasks s)) s) = Some s' → coherent s'.
Proof.
  intros Hc Htask Hres.
  assert (coherent (with_tasks (delete k (tasks s)) s)) as Hc'.
  { apply (coherent_update s); simpl; try done; [by left|].
    intros k' t' [_ Hold]%lookup_delete_Some. by left. }
  assert (coherent_task (fileMap (with_tasks (delete k (tasks s)) s)) t)
    as Hct by apply (proj2 Hc k t Htask).
  clear Hc Htask.
  revert Hc' Hct Hres. generalize (with_tasks (delete k (tasks s)) s).
  clear s. intros s Hc Hct Hres.
  destruct t as [fp rel file | fp rel | fp rel | fp rel | ];
    destruct o as [[template | m | l | ] | error];
    simpl in Hres; try discriminate; fs_cases Hres;
    try apply coherent_refreshFile;
    match goal with
    | Hc : coherent ?s0 |- _ =>
        apply (coherent_update s0); simpl; try done; try (by left);
        try (by intros rel'; apply is_Some_insert)
    end.
  intros k' t' [[<- <-] | [_ Hold]]%lookup_insert_Some; [by right | by left].
Qed.

Lemma coherent_step (s s' : State) (e : Event) :
  coherent s → step s e = Some s' → coherent s'.
Proof.
  intros Hc Hstep. unfold step in Hstep.
  destruct e as [fp | fp | h | k o | | ms | fp content].
  - destruct (exited s); injection Hstep as <-; [done|].
    by apply coherent_scheduleUpdate.
  - destruct (exited s); injection Hstep as <-; [done|].
    unfold createSchema. destruct (isShuttingDown s); [done|].
    apply (coherent_update s); simpl; try done; [by left|].
    intros k t [[<- <-] | [_ Hold]]%lookup_insert_Some; [by right | by left].
  - destruct (exited s); [by injection Hstep as <-|].
    destruct (timers s !! h) as [tm|] eqn:Htm; [|done].
    case_bool_decide; [|done]. injection Hstep as <-.
    destruct (proj1 Hc h tm Htm) as [Hrel Hsome].
    assert (coherent (with_timers (delete h (timers s)) s)) as Hc'.
    { apply (coherent_update s); simpl; try done; [|by left].
      intros h' tm' [_ Hold]%lookup_delete_Some. by left. }
    unfold onTimeout. simpl.
    destruct (disk s !! t_filePath tm) as [read|].
    + destruct (String.eqb read (code (t_file tm))).
      * eapply coherent_update; [exact Hc' | done | by left | by left].
      * eapply coherent_update; [exact Hc' | done | by left |].
        simpl. intros k t [[<- <-] | [_ Hold]]%lookup_insert_Some;
          [by right | by left].
    + apply coherent_refreshFile.
      eapply coherent_update; [exact Hc' | done | by left | by left].
  - destruct (exited s); [by injection Hstep as <-|].
    destruct (tasks s !! k) as [t|] eqn:Htask; [|done].
    by eapply coherent_resume.
  - destruct (exited s); injection Hstep as <-; [done|].
    unfold handleExit. destruct (isShuttingDown s); [done|].
    apply (coherent_update s); simpl; try done; [by left|].
    intros k t [[<- <-] | [_ Hold]]%lookup_insert_Some; [by right | by left].
  - case_bool_decide; [|done]. injection Hstep as <-.
    apply (coherent_update s); simpl; try done; by left.
  - injection Hstep as <-.
    apply (coherent_update s); simpl; try done; by left.
Qed.
(** *** Reachable states *)

Lemma fetchFiles_invariants (d : gmap string string) (ds : gset string)
    (response : Outcome) (s0 : State) :
  fetchFiles response (boot d ds) = Some s0 → handles_fresh s0 ∧ coherent s0.
Proof.
  intros (Htimers & Htasks & _)%fetchFiles_starts_idle.
  split; [|split].
  - intros h _. rewrite Htimers. apply lookup_empty.
  - intros h tm. by rewrite Htimers, lookup_empty.
  - intros k t. by rewrite Htasks, lookup_empty.
Qed.

(** In every state that a session reaches, handles are handed out in
    order and the runtime is consistent with [fileMap]: the
    preconditions of this kind in the theorems of this file restrict
    nothing. *)
Lemma reachable_invariants (s : State) :
  reachable s → handles_fresh s ∧ coherent s.
Proof.
  intros (d & ds & response & s0 & es & Hfetch & Hrun).
  apply fetchFiles_invariants in Hfetch. clear d ds response.
  revert s0 Hfetch Hrun.
  induction es as [|e es IH]; intros s0 [Hf Hc] Hrun.
  - by injection Hrun as <-.
  - simpl in Hrun. destruct (step s0 e) as [s1|] eqn:Hstep; [|done].
    apply (IH s1); [|done].
    split; [by eapply handles_fresh_step | by eapply coherent_step].
Qed.

(** A push in flight belongs to a path that [fileMap] knows. *)
Lemma pending_push_has_record (s : State) (k : nat)
    (filePath relativePath : string) (file : Template) :
  reachable s →
  tasks s !! k = Some (AwaitPatch filePath relativePath file) →
  relativePath = relativePath_of filePath ∧
  is_Some (fileMap s !! relativePath).
Proof.
  intros [_ [_ Htasks]]%reachable_invariants Htask.
  apply (Htasks k _ Htask).
Qed.

(** *** Provisioning *)



(** *** Conflict resolution *)

(** C4 (amended).  When the push for [filePath] fails, the record is
    fetched by the id that [fileMap] holds for the path at that moment,
    and no push is issued again.  When the fetch answers, the entry of
    [fileMap] is the fetched record, and the file at [filePath] holds
    exactly the fetched code, unless no file can be written there (a
    directory has taken its place, or a file that of a parent): then
    the disk stays as it is and an error is written.  When the fetch
    fails too, an error is written and nothing else changes: the file
    keeps the local edit and [fileMap] the old record. *)
Theorem failed_push_is_refreshed (s : State) (filePath : string) :
  (∀ k file current error,
     exited s = false →
     tasks s !! k
     = Some (AwaitPatch filePath (relativePath_of filePath) file) →
     fileMap s !! relativePath_of filePath = Some current →
     ∃ s1, step s (Settle k (Rejected error)) = Some s1 ∧
       calls s1 = calls s ++ [Get (id current)] ∧
       tasks s1
       = <[fresh s := AwaitRefresh filePath (relativePath_of filePath)]>
           (delete k (tasks s)) ∧
       timers s1 = timers s ∧ fileMap s1 = fileMap s ∧ disk s1 = disk s) ∧
  (∀ k rel fetched,
     exited s = false → tasks s !! k = Some (AwaitRefresh filePath rel) →
     ∃ s2, step s (Settle k (Resolved (DTemplate fetched))) = Some s2 ∧
       fileMap s2 = <[rel := fetched]> (fileMap s) ∧
       calls s2 = calls s ∧
       tasks s2 = delete k (tasks s) ∧ timers s2 = timers s ∧
       disk s2
       = (if writable (disk s) (dirs s) filePath
          then <[filePath := code fetched]> (disk s) else disk s) ∧
       console s2
       = console s
         ++ [if writable (disk s) (dirs s) filePath
             then LogRefreshed rel
             else ErrRefreshing (write_error (disk s) filePath)]) ∧
  (∀ k rel error,
     exited s = false → tasks s !! k = Some (AwaitRefresh filePath rel) →
     ∃ s3, step s (Settle k (Rejected error)) = Some s3 ∧
       disk s3 = disk s ∧ fileMap s3 = fileMap s ∧ calls s3 = calls s ∧
       tasks s3 = delete k (tasks s) ∧ timers s3 = timers s ∧
       console s3 = console s ++ [ErrRefreshing error]).
Proof.
  split; [|split].
  - intros k file current error Hexit Htask Hcur.
    unfold step. rewrite Hexit, Htask. simpl.
    unfold refreshFile. simpl. rewrite Hcur. by eexists.
  - intros k rel fetched Hexit Htask.
    unfold step. rewrite Hexit, Htask. simpl.
    unfold outputFile. simpl.
    destruct (writable (disk s) (dirs s) filePath); by eexists.
  - intros k rel error Hexit Htask.
    unfold step. rewrite Hexit, Htask. simpl. by eexists.
Qed.

(** When the fetch fails too, the handler gives up: an error line is
    written and nothing else changes. *)
Lemma failed_refresh_gives_up (s : State) (k : nat)
    (filePath rel error : string) :
  exited s = false → tasks s !! k = Some (AwaitRefresh filePath rel) →
  ∃ s', step s (Settle k (Rejected error)) = Some s' ∧
    disk s' = disk s ∧ fileMap s' = fileMap s ∧ calls s' = calls s ∧
    tasks s' = delete k (tasks s) ∧ timers s' = timers s ∧
    console s' = console s ++ [ErrRefreshing error].
Proof.
  intros Hexit Htask. unfold step. rewrite Hexit, Htask. simpl. by eexists.
Qed.

(** *** No-op suppression *)

(** What the callback of a timer compares the file with is the record
    that it captured from [fileMap] when it was armed: when the content
    read from the disk equals the code of that record, no request is
    issued, nothing is written to the console, and the entry of the
    record's id is taken out of the pending table. *)
Lemma captured_content_is_not_pushed (s : State) (h : nat) (tm : Timer) :
  exited s = false →
  timers s !! h = Some tm → deadline tm ≤ now s →
  disk s !! t_filePath tm = Some (code (t_file tm)) →
  ∃ s', step s (Fire h) = Some s' ∧
    calls s' = calls s ∧ console s' = console s ∧ tasks s' = tasks s ∧
    fileMap s' = fileMap s ∧ disk s' = disk s ∧
    timers s' = delete h (timers s) ∧
    pendingUpdates s' = delete (id (t_file tm)) (pendingUpdates s).
Proof.
  intros Hexit Htm Hdue Hread. unfold step. rewrite Hexit, Htm.
  rewrite bool_decide_eq_true_2 by done.
  unfold onTimeout. simpl. rewrite Hread, String.eqb_refl. by eexists.
Qed.

(** *** Timers that are pending at shutdown *)


End CoreProperties.

(** ** The claims on the concrete session *)

Section OnTheSession.
Local Existing Instance plain_session.

Lemma session_state :
  fileMap session = {[ "a.ejs" := page ]} ∧
  disk session !! "/w/a.ejs" = Some "a" ∧
  calls session = [GetAll] ∧ timers session = ∅ ∧ fresh session = 0%nat ∧
  exited session = false ∧ isShuttingDown session = false.
Proof.
  split; [vm_compute; reflexivity|]. split; [vm_compute; reflexivity|].
  split; [vm_compute; reflexivity|]. split; [vm_compute; reflexivity|].
  split; [vm_compute; reflexivity|]. split; vm_compute; reflexivity.
Qed.



(** C3 fails on the code.  At the end of [touched_in_flight] timer 2
    is due and the content of the disk is the code that [fileMap] holds
    for the path at that moment; the timer pushes all the same, and with
    the marker of [page], which the server has superseded: what the
    callback compares the file with is the record it closed over when
    it was armed, not the entry of [fileMap]. *)
Theorem stale_record_is_pushed_again :
  run session touched_in_flight = Some (after touched_in_flight) ∧
  timers (after touched_in_flight) !! 2%nat
  = Some (armed 1000 "/w/a.ejs" page) ∧
  deadline (armed 1000 "/w/a.ejs" page) ≤ now (after touched_in_flight) ∧
  fileMap (after touched_in_flight) !! "a.ejs" = Some page_pushed ∧
  disk (after touched_in_flight) !! "/w/a.ejs" = Some (code page_pushed) ∧
  calls <$> step (after touched_in_flight) (Fire 2%nat)
  = Some (calls (after touched_in_flight) ++ [Patch 1 "b" "u0"]).
Proof.
  split; [vm_compute; reflexivity|].
  split; [vm_compute; reflexivity|].
  split; [vm_compute; discriminate|].
  split; [vm_compute; reflexivity|].
  split; vm_compute; reflexivity.
Qed.

(** The trace [overlap] leaves two armed timers for the one record: the
    settled push deleted the entry of [pendingUpdates] that the second
    timer had just taken, so the third event cancelled nothing. *)
Lemma two_timers_for_one_record :
  timers (after overlap) !! 2%nat = Some (armed 1000 "/w/a.ejs" page) ∧
  timers (after overlap) !! 3%nat
  = Some (armed 1500 "/w/a.ejs" page_pushed) ∧
  id page = id page_pushed.
Proof.
  split; [vm_compute; reflexivity|].
  split; [vm_compute; reflexivity | reflexivity].
Qed.





(** C5 as stated fails.  After an interrupt a modified event for an
    unknown path writes no warning. *)
Lemma unknown_path_counterexample :
  run session [Interrupt] = Some (after [Interrupt]) ∧
  fileMap (after [Interrupt]) !! relativePath_of "/w/x.ejs" = None ∧
  console <$> step (after [Interrupt]) (Change "/w/x.ejs")
  = Some (console (after [Interrupt])).
Proof.
  split; [vm_compute; reflexivity|].
  split; vm_compute; reflexivity.
Qed.

Lemma unknown_path_is_skipped_witness :
  ∃ s', step session (Change "/w/x.ejs") = Some s' ∧
    calls s' = calls session ∧
    console s' = console session ++ [WarnSkipping "x.ejs"].
Proof.
  destruct (unknown_path_is_skipped session "/w/x.ejs")
    as (s' & Hstep & Hcalls & _ & _ & _ & _ & _ & Hconsole).
  - vm_compute; reflexivity.
  - exists s'. split; [exact Hstep|]. split; [exact Hcalls|].
    exact Hconsole.
Defined.

(** C7 as stated fails.  The two records of [listing] declare distinct
    paths, and [fileMap] ends up with one entry, that of the second
    record.  The one record of [agent_listing] is stored under the name
    of the reference document, and its file holds that document, not its
    code.  The second record of [nested] is to lie below the file of the
    first: its file cannot be written, the snapshot ends there with an
    error, and neither that record nor AGENT.md is in the workspace. *)
Lemma snapshot_counterexample :
  (NoDup (file_path <$> listing) ∧
   Forall (λ file, file_path file ≠ EmptyString) listing ∧
   length listing = 2%nat ∧
   (size ∘ fileMap) <$> fetchFiles (Resolved (DListing listing)) (boot ∅ ∅)
   = Some 1%nat ∧
   (λ s, fileMap s !! "x/y")
     <$> fetchFiles (Resolved (DListing listing)) (boot ∅ ∅)
   = Some (listing !! 1%nat)) ∧
  (code <$> agent_listing = ["mine"] ∧
   (λ s, disk s !! path_join VIEWS_DIR "AGENT.md")
     <$> fetchFiles (Resolved (DListing agent_listing)) (boot ∅ ∅)
   = Some (Some agentMdContent) ∧
   agentMdContent ≠ "mine") ∧
  (NoDup (file_path <$> nested) ∧
   NoDup (slashes ∘ file_path <$> nested) ∧
   (λ s, (size (fileMap s), size (disk s), console s))
     <$> fetchFiles (Resolved (DListing nested)) (boot ∅ ∅)
   = Some (1%nat, 1%nat, [LogFetching; ErrFetching "ENOTDIR"]) ∧
   (λ s, disk s !! path_join VIEWS_DIR "x/y")
     <$> fetchFiles (Resolved (DListing nested)) (boot ∅ ∅)
   = Some None).
Proof.
  split; [|split].
  - split.
    { apply NoDup_cons. split; [|apply NoDup_singleton].
      intros Hin%list_elem_of_singleton. discriminate. }
    split; [repeat constructor; discriminate|].
    split; [reflexivity|].
    split; vm_compute; reflexivity.
  - split; [reflexivity|]. split; [vm_compute; reflexivity | discriminate].
  - split.
    { apply NoDup_cons. split; [|apply NoDup_singleton].
      intros Hin%list_elem_of_singleton. discriminate. }
    split.
    { apply NoDup_cons. split; [|apply NoDup_singleton].
      intros Hin%list_elem_of_singleton. discriminate. }
    split; vm_compute; reflexivity.
Qed.

Lemma snapshot_is_complete_witness :
  ∃ s, fetchFiles (Resolved (DListing [page; canonical])) (boot ∅ ∅)
       = Some s ∧
    size (fileMap s) = 2%nat ∧
    disk s !! "/w/views/new.ejs" = Some EmptyString.
Proof.
  destruct (snapshot_is_complete ∅ ∅ [page; canonical])
    as (s & Hfetch & Hfiles & Hsize & _).
  - repeat constructor; discriminate.
  - apply NoDup_cons. split; [|apply NoDup_singleton].
    intros Hin%list_elem_of_singleton. discriminate.
  - apply NoDup_cons. split; [|apply NoDup_singleton].
    intros Hin%list_elem_of_singleton. discriminate.
  - intros Hin. apply elem_of_cons in Hin as [Heq | Hin]; [discriminate|].
    apply list_elem_of_singleton in Hin. discriminate.
  - reflexivity.
  - vm_compute; reflexivity.
  - intros file Hin. apply elem_of_cons in Hin as [-> | Hin].
    + vm_compute; reflexivity.
    + apply list_elem_of_singleton in Hin as ->. vm_compute; reflexivity.
  - vm_compute; reflexivity.
  - intros f g Hf Hg.
    apply elem_of_cons in Hf as [-> | ->%list_elem_of_singleton];
      apply elem_of_cons in Hg as [-> | ->%list_elem_of_singleton];
      vm_compute; reflexivity.
  - intros file Hin.
    apply elem_of_cons in Hin as [-> | ->%list_elem_of_singleton];
      split; vm_compute; reflexivity.
  - exists s. split; [exact Hfetch|]. split; [exact Hsize|].
    apply (Hfiles canonical). apply elem_of_cons. right.
    apply list_elem_of_singleton. reflexivity.
Defined.

(** C4 as stated fails.  In [refused] the push fails and so does the
    fetch: the handler is done, nothing is pending, and the file holds
    the local edit and [fileMap] the old record.  In [replaced] the
    fetch answers, and a directory has taken the place of the file:
    nothing is written, and an error follows. *)
Lemma refresh_counterexample :
  (run session refused = Some (after refused) ∧
   calls (after refused) = [GetAll; Patch 1 "b" "u0"; Get 1] ∧
   tasks (after refused) = ∅ ∧ timers (after refused) = ∅ ∧
   disk (after refused) !! "/w/a.ejs" = Some "b" ∧
   fileMap (after refused) !! "a.ejs" = Some page ∧
   code page ≠ "b") ∧
  (tasks replaced !! 2%nat = Some (AwaitRefresh "/w/a.ejs" "a.ejs") ∧
   (λ s, (disk s !! "/w/a.ejs", last (console s)))
     <$> step replaced (Settle 2%nat (Resolved (DTemplate page_pushed)))
   = Some (None, Some (ErrRefreshing "EISDIR"))).
Proof.
  split.
  - split; [vm_compute; reflexivity|].
    split; [vm_compute; reflexivity|].
    split; [vm_compute; reflexivity|].
    split; [vm_compute; reflexivity|].
    split; [vm_compute; reflexivity|].
    split; [vm_compute; reflexivity | discriminate].
  - split; vm_compute; reflexivity.
Qed.

Lemma failed_push_is_refreshed_witness :
  (∃ s1, step (after [Save "/w/a.ejs" "b"; Change "/w/a.ejs"; Tick 1000;
                      Fire 0%nat])
              (Settle 1%nat (Rejected "409")) = Some s1 ∧
         calls s1 = [GetAll; Patch 1 "b" "u0"; Get 1]) ∧
  (∃ s2, step (after [Save "/w/a.ejs" "b"; Change "/w/a.ejs"; Tick 1000;
                      Fire 0%nat; Settle 1%nat (Rejected "409")])
              (Settle 2%nat (Resolved (DTemplate page_pushed))) = Some s2 ∧
         disk s2 !! "/w/a.ejs" = Some "b" ∧
         fileMap s2 !! "a.ejs" = Some page_pushed) ∧
  (∃ s3, step (after [Save "/w/a.ejs" "b"; Change "/w/a.ejs"; Tick 1000;
                      Fire 0%nat; Settle 1%nat (Rejected "409")])
              (Settle 2%nat (Rejected "503")) = Some s3 ∧
         calls s3 = [GetAll; Patch 1 "b" "u0"; Get 1]).
Proof.
  split; [|split].
  - destruct (proj1 (failed_push_is_refreshed
                (after [Save "/w/a.ejs" "b"; Change "/w/a.ejs"; Tick 1000;
                        Fire 0%nat]) "/w/a.ejs")
                1%nat page page "409")
      as (s1 & Hstep1 & Hcalls1 & _).
    + vm_compute; reflexivity.
    + vm_compute; reflexivity.
    + vm_compute; reflexivity.
    + exists s1. split; [exact Hstep1|]. rewrite Hcalls1.
      vm_compute; reflexivity.
  - destruct (proj1 (proj2 (failed_push_is_refreshed
                (after [Save "/w/a.ejs" "b"; Change "/w/a.ejs"; Tick 1000;
                        Fire 0%nat; Settle 1%nat (Rejected "409")])
                "/w/a.ejs"))
                2%nat "a.ejs" page_pushed)
      as (s2 & Hstep2 & Hmap2 & _ & _ & _ & Hdisk2 & _).
    + vm_compute; reflexivity.
    + vm_compute; reflexivity.
    + exists s2. split; [exact Hstep2|].
      split; [rewrite Hdisk2; vm_compute; reflexivity|].
      rewrite Hmap2. apply lookup_insert_eq.
  - destruct (proj2 (proj2 (failed_push_is_refreshed
                (after [Save "/w/a.ejs" "b"; Change "/w/a.ejs"; Tick 1000;
                        Fire 0%nat; Settle 1%nat (Rejected "409")])
                "/w/a.ejs"))
                2%nat "a.ejs" "503")
      as (s3 & Hstep3 & _ & _ & Hcalls3 & _).
    + vm_compute; reflexivity.
    + vm_compute; reflexivity.
    + exists s3. split; [exact Hstep3|]. rewrite Hcalls3.
      vm_compute; reflexivity.
Defined.


End OnTheSession.

(** * Further properties of the core *)

(** ** Path normalisation *)

Lemma slashes_idempotent (s : string) : slashes (slashes s) = slashes s.
Proof.
  induction s as [|c s IH]; [done|]. simpl. rewrite IH. f_equal.
  destruct (Ascii.eqb c "\"%char) eqn:Hc; [done|]. by rewrite Hc.
Qed.

Lemma slashes_length (s : string) :
  String.length (slashes s) = String.length s.
Proof. induction s as [|c s IH]; [done|]. simpl. by rewrite IH. Qed.

Lemma slashes_no_backslash (s : string) (n : nat) :
  String.get n (slashes s) ≠ Some "\"%char.
Proof.
  revert n. induction s as [|c s IH]; intros n; [done|].
  destruct n as [|n]; simpl; [|apply IH].
  destruct (Ascii.eqb c "\"%char) eqn:Hc; [done|].
  intros [= ->]. by rewrite Ascii.eqb_refl in Hc.
Qed.

(** Normalising a path puts it in a form that normalising leaves alone:
    the result has the length of the path and no backslash, and a path
    without backslash is its own normal form. *)
Theorem slashes_normal_form (s : string) :
  slashes (slashes s) = slashes s ∧
  String.length (slashes s) = String.length s ∧
  (∀ n, String.get n (slashes s) ≠ Some "\"%char) ∧
  ((∀ n, String.get n s ≠ Some "\"%char) → slashes s = s).
Proof.
  split; [apply slashes_idempotent|]. split; [apply slashes_length|]. split.
  - apply slashes_no_backslash.
  - induction s as [|c s IH]; intros Hfree; [done|]. simpl.
    rewrite IH by (intros n; apply (Hfree (S n))).
    destruct (Ascii.eqb c "\"%char) eqn:Hc; [|done].
    apply Ascii.eqb_eq in Hc as ->. by specialize (Hfree 0%nat).
Qed.

(** ** Maps filled by a loop: the last assignment stays *)

Lemma fill_lookup_last {K V A : Type} `{Countable K}
    (key : A → K) (val : A → V) (l : list A) (m : gmap K V) (q : K) :
  fill key val m l !! q
  = match last (filter (λ x, key x = q) l) with
    | Some x => Some (val x)
    | None => m !! q
    end.
Proof.
  induction l as [|x l IH] using rev_ind; [done|].
  unfold fill in *. rewrite foldl_snoc, filter_app.
  destruct (decide (key x = q)) as [Heq | Hne].
  - rewrite filter_cons_True, filter_nil, last_snoc by done.
    rewrite Heq. apply lookup_insert_eq.
  - rewrite filter_cons_False, filter_nil, (right_id_L [] (++)) by done.
    by rewrite lookup_insert_ne.
Qed.

Section MoreOfTheCore.
Context {session : Session}.

(** ** A case analysis of one turn of the event loop *)

(** Every way in which [step s e = Some s'] can hold, with [s'] written
    out. *)
Ltac step_cases Hstep :=
  unfold step, scheduleUpdate, createSchema, onTimeout, handleExit, resume,
    onTimeout_resume, refreshFile_resume, createSchema_provisioned,
    createSchema_resume, createSchema_rename, cleanupFiles_resume,
    createSchema_catch, createSchema_record, refreshFile, cleanupFiles,
    clearPending, try_catch, and_then, just, outputFile, move, unlink,
    left_behind, write
    in Hstep;
  simpl in Hstep;
  repeat (case_match; simplify_eq; simpl in * ).

(** ** Entries of fileMap *)

Lemma step_keeps_entries (s s' : State) (e : Event) (relativePath : string) :
  step s e = Some s' →
  is_Some (fileMap s !! relativePath) → is_Some (fileMap s' !! relativePath).
Proof.
  intros Hstep Hsome.
  step_cases Hstep; try done; by apply is_Some_insert.
Qed.

(** The engine never deletes an entry of [fileMap]: a path that has a
    record keeps having one, whatever happens. *)
Theorem entries_are_never_deleted (s s' : State) (es : list Event)
    (relativePath : string) :
  run s es = Some s' →
  is_Some (fileMap s !! relativePath) → is_Some (fileMap s' !! relativePath).
Proof.
  revert s. induction es as [|e es IH]; intros s Hrun Hsome.
  - by injection Hrun as <-.
  - simpl in Hrun. destruct (step s e) as [s1|] eqn:Hstep; [|done].
    apply (IH s1 Hrun). by eapply step_keeps_entries.
Qed.

(** ** The snapshot: errors and edge cases *)

Lemma fetchFiles_loop_declared (data : list Template) (s : State) :
  for_of fetchFiles_body data s
  = for_of fetchFiles_body (filter (λ file, Is_true (declares file)) data) s.
Proof.
  revert s. induction data as [|file data IH]; intros s; [done|].
  destruct (declares file) eqn:Hd.
  - rewrite filter_cons_True by by rewrite Hd. simpl.
    destruct (fetchFiles_body file s); [apply IH | done].
  - rewrite filter_cons_False by (rewrite Hd; intros []). simpl.
    unfold fetchFiles_body at 1. fold (declares file). rewrite Hd. apply IH.
Qed.

(** The ways in which the snapshot of a listing can end: at the record
    whose file cannot be written (or before the first one, when the
    workspace root cannot be made), at AGENT.md, or not at all.  [done]
    are the records before the one at which it ended. *)
Lemma fetchFiles_listing (d : gmap string string) (ds : gset string)
    (data : list Template) :
  ∃ s done,
    fetchFiles (Resolved (DListing data)) (boot d ds) = Some s ∧
    done `prefix_of` data ∧
    fileMap s
    = fill (λ f, slashes (file_path f)) (λ f, f) ∅
        (filter (λ file, Is_true (declares file)) done) ∧
    ((disk s
      = fill (λ f, path_join VIEWS_DIR (file_path f)) code d
          (filter (λ file, Is_true (declares file)) done) ∧
      ∃ error, console s = [LogFetching; ErrFetching error]) ∨
     (done = data ∧
      disk s
      = fill (λ f, path_join VIEWS_DIR (file_path f)) code d
          (filter (λ file, Is_true (declares file)) done) ∧
      ∃ error,
        console s
        = [LogFetching; LogDownloaded (length data); ErrFetching error]) ∨
     (done = data ∧
      disk s
      = <[path_join VIEWS_DIR "AGENT.md" := agentMdContent]>
          (fill (λ f, path_join VIEWS_DIR (file_path f)) code d
             (filter (λ file, Is_true (declares file)) done)) ∧
      console s = [LogFetching; LogDownloaded (length data)])).
Proof.
  unfold fetchFiles, ensureDir. simpl.
  destruct (d !! VIEWS_DIR).
  { eexists. exists []. split; [done|]. split; [apply prefix_nil|]. split; [done|].
    left. split; [done|]. by eexists. }
  destruct (under_file d VIEWS_DIR).
  { eexists. exists []. split; [done|]. split; [apply prefix_nil|]. split; [done|].
    left. split; [done|]. by eexists. }
  simpl.
  match goal with
  | |- context [for_of fetchFiles_body data ?s] =>
      destruct (fetchFiles_loop_done data s) as (done & Hpre & Hshape & Hall);
      destruct (for_of fetchFiles_body data s) as [sl | error sl]
  end; simpl in Hshape; subst sl; simpl.
  - rewrite (Hall _ eq_refl) in *. unfold outputFile. simpl.
    destruct (writable _ _ _); simpl.
    + eexists. exists data. split; [done|]. split; [done|]. split; [done|].
      right. right. by split.
    + eexists. exists data. split; [done|]. split; [done|]. split; [done|].
      right. left. split; [done|]. split; [done|]. by eexists.
  - eexists. exists done. split; [done|]. split; [done|]. split; [done|].
    left. split; [done|]. by eexists.
Qed.

Lemma declared_nonempty (data : list Template) :
  Forall (λ file, file_path file ≠ EmptyString)
    (filter (λ file, Is_true (declares file)) data).
Proof.
  apply Forall_forall. intros file [Hd _]%list_elem_of_filter.
  unfold declares in Hd. by destruct (file_path file).
Qed.

(** Without files in [fileMap], without timers and with no request but
    that of the listing, a turn of the event loop leaves things so,
    unless a file is created. *)
Lemma step_without_files (s s' : State) (e : Event) :
  fileMap s = ∅ ∧ calls s = [GetAll] ∧ timers s = ∅ ∧
  (∀ k t, tasks s !! k = Some t → t = AwaitRemove) →
  (∀ filePath, e ≠ Add filePath) →
  step s e = Some s' →
  fileMap s' = ∅ ∧ calls s' = [GetAll] ∧ timers s' = ∅ ∧
  (∀ k t, tasks s' !! k = Some t → t = AwaitRemove).
Proof.
  intros (Hmap & Hcalls & Htimers & Htasks) Hno Hstep.
  destruct e as [fp | fp | h | k o | | ms | fp content]; simpl in Hstep.
  - destruct (exited s); simplify_eq; [done|].
    unfold scheduleUpdate. destruct (isShuttingDown s); [done|].
    by rewrite Hmap, lookup_empty.
  - by destruct (Hno fp).
  - destruct (exited s); simplify_eq; [done|].
    by rewrite Htimers, lookup_empty in Hstep.
  - destruct (exited s); simplify_eq; [done|].
    destruct (tasks s !! k) as [t|] eqn:Htask; [|done].
    rewrite (Htasks k t Htask) in Hstep. simpl in Hstep.
    destruct o as [[template | m | l | ] | error]; try discriminate.
    injection Hstep as <-. simpl.
    do 3 (split; [done|]).
    intros k' t' [_ Hold]%lookup_delete_Some. by eapply Htasks.
  - destruct (exited s); simplify_eq; [done|].
    unfold handleExit. destruct (isShuttingDown s); [done|]. simpl.
    do 3 (split; [done|]).
    intros k' t' [[_ <-] | [_ Hold]]%lookup_insert_Some; [done|].
    by eapply Htasks.
  - case_bool_decide; by simplify_eq.
  - by simplify_eq.
Qed.

(** When the listing request fails the session goes on with nothing: no
    file is written (not even AGENT.md) and one error line follows the
    announcement.  As long as no file is created in the workspace it
    stays so, whatever else happens: [fileMap] is empty, no request has
    been sent, no timer is armed, and a modified event is answered with
    a warning and nothing else (with nothing at all once the shutdown
    has begun). *)
Theorem failed_listing_leaves_nothing (d : gmap string string)
    (ds : gset string) (error : string) (es : list Event) (s s' : State) :
  fetchFiles (Rejected error) (boot d ds) = Some s →
  Forall (λ e, ∀ filePath, e ≠ Add filePath) es →
  run s es = Some s' →
  disk s = d ∧ console s = [LogFetching; ErrFetching error] ∧
  fileMap s' = ∅ ∧ calls s' = [GetAll] ∧ timers s' = ∅ ∧
  ∀ filePath, ∃ s'',
    step s' (Change filePath) = Some s'' ∧
    fileMap s'' = ∅ ∧ calls s'' = [GetAll] ∧ timers s'' = ∅ ∧
    tasks s'' = tasks s' ∧ disk s'' = disk s' ∧
    console s''
    = if (exited s' || isShuttingDown s')%bool then console s'
      else console s' ++ [WarnSkipping (relativePath_of filePath)].
Proof.
  intros Hfetch Hno Hrun. injection Hfetch as <-.
  split; [done|]. split; [done|].
  match type of Hrun with run ?s0 _ = _ =>
    assert (fileMap s0 = ∅ ∧ calls s0 = [GetAll] ∧ timers s0 = ∅ ∧
            (∀ k t, tasks s0 !! k = Some t → t = AwaitRemove)) as Hidle
      by (by repeat split);
    revert Hidle Hrun; generalize s0
  end.
  induction Hno as [|e es He _ IH]; intros s0 Hidle Hrun.
  - injection Hrun as <-. destruct Hidle as (Hmap & Hcalls & Htimers & _).
    do 3 (split; [done|]). intros filePath.
    unfold step, scheduleUpdate. rewrite Hmap, lookup_empty.
    destruct (exited s0); [by eexists|].
    destruct (isShuttingDown s0); by eexists.
  - simpl in Hrun. destruct (step s0 e) as [s1|] eqn:Hstep; [|done].
    apply (IH s1); [|done]. by eapply step_without_files.
Qed.

(** Records that declare no path are passed over: the files written and
    [fileMap] are those of the listing without them.  The line that
    reports the download counts them all the same: no other count is
    ever reported, and this one is when the snapshot is complete. *)
Theorem listing_skips_pathless_records (d : gmap string string)
    (ds : gset string) (data : list Template) :
  ∃ s s',
    fetchFiles (Resolved (DListing data)) (boot d ds) = Some s ∧
    fetchFiles (Resolved (DListing
                  (filter (λ file, Is_true (declares file)) data)))
      (boot d ds)
    = Some s' ∧
    fileMap s = fileMap s' ∧ disk s = disk s' ∧
    (∀ n, LogDownloaded n ∈ console s → n = length data) ∧
    ((∀ error, ErrFetching error ∉ console s) →
     last (console s) = Some (LogDownloaded (length data))).
Proof.
  unfold fetchFiles. do 2 eexists. split; [done|]. split; [done|].
  unfold ensureDir. simpl.
  assert (∀ error n, LogDownloaded n ∉ [LogFetching; ErrFetching error])
    as Hnone.
  { intros error n Hin. repeat (apply elem_of_cons in Hin as [? | Hin]);
      try done. by apply elem_of_nil in Hin. }
  assert (∀ error (rest : list Line),
            ¬ (∀ error', ErrFetching error' ∉ rest ++ [ErrFetching error]))
    as Hsome.
  { intros error rest Hnot. apply (Hnot error), elem_of_app. right.
    by apply list_elem_of_singleton. }
  destruct (d !! VIEWS_DIR); simpl.
  { do 2 (split; [done|]). split; [by intros n ?%Hnone|].
    by intros ?%(Hsome _ [_]). }
  destruct (under_file d VIEWS_DIR); simpl.
  { do 2 (split; [done|]). split; [by intros n ?%Hnone|].
    by intros ?%(Hsome _ [_]). }
  rewrite <- fetchFiles_loop_declared.
  match goal with
  | |- context [for_of fetchFiles_body data ?s] =>
      destruct (fetchFiles_loop_done data s) as (done & _ & Hshape & _);
      destruct (for_of fetchFiles_body data s) as [sl | error sl]
  end; simpl in Hshape; subst sl; simpl.
  - unfold outputFile. simpl. destruct (writable _ _ _); simpl.
    + do 2 (split; [done|]). split; [|done].
      intros n Hin. repeat (apply elem_of_cons in Hin as [? | Hin]);
        simplify_eq; try done. by apply elem_of_nil in Hin.
    + do 2 (split; [done|]). split; [|by intros ?%(Hsome _ [_; _])].
      intros n Hin. repeat (apply elem_of_cons in Hin as [? | Hin]);
        simplify_eq; try done. by apply elem_of_nil in Hin.
  - do 2 (split; [done|]). split; [by intros n ?%Hnone|].
    by intros ?%(Hsome _ [_]).
Qed.


(** ** After the shutdown flag is set *)

Lemma step_after_shutdown (s s' : State) (e : Event) :
  isShuttingDown s = true → step s e = Some s' →
  isShuttingDown s' = true ∧
  (∀ h tm, timers s' !! h = Some tm → timers s !! h = Some tm) ∧
  ∃ sent, calls s' = calls s ++ sent ∧
          Forall (λ c, ∀ p, c ≠ PostCli p) sent.
Proof.
  intros Hflag Hstep.
  step_cases Hstep;
    (split; [done|]);
    (split; [try done; by intros h' tm' [_ Hold]%lookup_delete_Some|]);
    try (exists []; by rewrite (right_id_L [] (++)));
    (eexists [_]; split; [done|]; by repeat constructor).
Qed.

(** Once the shutdown flag is set it stays set, no timer is armed any
    more (the armed timers are among those that were armed when it was
    set) and no provisioning request is sent, whatever events follow. *)
Theorem shutdown_starts_nothing (s s' : State) (es : list Event) :
  isShuttingDown s = true → run s es = Some s' →
  isShuttingDown s' = true ∧
  (∀ h tm, timers s' !! h = Some tm → timers s !! h = Some tm) ∧
  ∃ sent, calls s' = calls s ++ sent ∧
          Forall (λ c, ∀ p, c ≠ PostCli p) sent.
Proof.
  revert s. induction es as [|e es IH]; intros s Hflag Hrun.
  - injection Hrun as <-. split; [done|]. split; [done|].
    exists []. by rewrite (right_id_L [] (++)).
  - simpl in Hrun. destruct (step s e) as [s1|] eqn:Hstep; [|done].
    destruct (step_after_shutdown s s1 e Hflag Hstep)
      as (Hflag1 & Htimers1 & sent1 & Hcalls1 & Hsent1).
    destruct (IH s1 Hflag1 Hrun) as (Hflag' & Htimers' & sent & Hcalls & Hsent).
    split; [done|]. split; [by intros h tm ?; apply Htimers1, Htimers'|].
    exists (sent1 ++ sent). split; [by rewrite Hcalls, Hcalls1, (assoc_L (++))|].
    by apply Forall_app.
Qed.

(** ** What is sent *)

Lemma patch_code_nonempty (read : string) : patch_code read ≠ EmptyString.
Proof. unfold patch_code. by destruct read. Qed.

Lemma step_well_formed (s s' : State) (e : Event) :
  Forall well_formed (calls s) ∧ timers_have_ids s →
  step s e = Some s' →
  Forall well_formed (calls s') ∧ timers_have_ids s'.
Proof.
  intros [Hcalls Hids] Hstep. unfold timers_have_ids in *.
  step_cases Hstep; (split; [|intros h' tm']);
    rewrite ?Forall_app, ?Forall_singleton;
    rewrite ?lookup_insert_Some, ?lookup_delete_Some;
    try done; try (by eauto); try (by intros [_ ?]; eauto).
  - intros [[_ <-] | [_ [_ Hold]]]; simpl; [by apply Z.eqb_neq | by eauto].
  - intros [[_ <-] | [_ Hold]]; simpl; [by apply Z.eqb_neq | by eauto].
  - split; [done|]. split; [by eauto | apply patch_code_nonempty].
Qed.

(** Every push that a session ever sends names a record (its id is not
    falsy) and carries some code, never the empty string. *)
Theorem pushes_are_well_formed (s : State) :
  reachable s → Forall well_formed (calls s).
Proof.
  intros (d & ds & response & s0 & es & Hfetch & Hrun).
  assert (Forall well_formed (calls s0) ∧ timers_have_ids s0) as Hinv.
  { destruct (fetchFiles_starts_idle d ds response s0 Hfetch)
      as (Htimers & _ & Hcalls & _).
    split; [rewrite Hcalls; by repeat constructor|].
    intros h tm. by rewrite Htimers, lookup_empty. }
  clear Hfetch. revert s0 Hinv Hrun.
  induction es as [|e es IH]; intros s0 Hinv Hrun.
  - injection Hrun as <-. apply Hinv.
  - simpl in Hrun. destruct (step s0 e) as [s1|] eqn:Hstep; [|done].
    apply (IH s1); [|done]. by eapply step_well_formed.
Qed.

(** ** The keys of fileMap *)

Lemma relativePath_of_normal (filePath : string) :
  slashes (relativePath_of filePath) = relativePath_of filePath.
Proof. apply slashes_idempotent. Qed.

Lemma step_keys_normalised (s s' : State) (e : Event) :
  coherent s → keys_normalised s → step s e = Some s' → keys_normalised s'.
Proof.
  intros [_ Htasks] Hkeys Hstep rel. unfold keys_normalised in Hkeys.
  step_cases Hstep; try (by apply Hkeys);
    intros [<- | [_ Hold]]%lookup_insert_is_Some;
    try (by apply Hkeys);
    try apply slashes_idempotent;
    match goal with
    | Htask : tasks _ !! _ = Some _ |- _ =>
        destruct (Htasks _ _ Htask) as [-> _]; apply relativePath_of_normal
    end.
Qed.

(** In every state of a session, every key of [fileMap] is in
    forward-slash form: it contains no backslash, whichever way the
    entry came in (snapshot, provisioning, push or refresh). *)
Theorem keys_are_normalised (s : State) (relativePath : string) :
  reachable s → is_Some (fileMap s !! relativePath) →
  ∀ n, String.get n relativePath ≠ Some "\"%char.
Proof.
  intros (d & ds & response & s0 & es & Hfetch & Hrun) Hsome.
  assert (keys_normalised s) as Hnormal.
  { pose proof (fetchFiles_invariants d ds response s0 Hfetch) as [_ Hc0].
    assert (keys_normalised s0) as Hk0.
    { destruct response as [[template | m | data | ] | error];
        try discriminate;
        [|injection Hfetch as <-;
          by intros rel [x Hx]; simpl in Hx; rewrite lookup_empty in Hx].
      destruct (fetchFiles_listing d ds data)
        as (s1 & done & Hfetch1 & _ & Hmap & _).
      rewrite Hfetch in Hfetch1. injection Hfetch1 as <-.
      intros rel [x Hx]. rewrite Hmap in Hx.
      rewrite (fill_lookup_last (λ f, slashes (file_path f)) (λ f, f)) in Hx.
      destruct (last _) as [file|] eqn:Hlast; [|by rewrite lookup_empty in Hx].
      apply last_Some_elem_of, list_elem_of_filter in Hlast as [<- _].
      apply slashes_idempotent. }
    clear Hfetch Hsome. revert s0 Hc0 Hk0 Hrun.
    induction es as [|e es IH]; intros s0 Hc0 Hk0 Hrun.
    - by injection Hrun as <-.
    - simpl in Hrun. destruct (step s0 e) as [s1|] eqn:Hstep; [|done].
      apply (IH s1); [by eapply coherent_step | | done].
      by eapply step_keys_normalised. }
  rewrite <- (Hnormal relativePath Hsome).
  apply slashes_no_backslash.
Qed.

(** ** Chaining turns of the event loop *)

Lemma run_cons (s s1 : State) (e : Event) (es : list Event) :
  step s e = Some s1 → run s (e :: es) = run s1 es.
Proof. intros Hstep. simpl. by rewrite Hstep. Qed.

Lemma clearPending_eq (s : State) (i : Z) :
  clearPending i s
  = with_timers
      match pendingUpdates s !! i with
      | Some h => delete h (timers s)
      | None => timers s
      end s.
Proof.
  unfold clearPending. destruct (pendingUpdates s !! i); [done|].
  by destruct s.
Qed.

(** ** After a push *)

(** When a push succeeds, the record that the server returns becomes the
    entry of the path, and the next modified event is compared with it:
    the timer it arms sends nothing if the file holds the returned code,
    and otherwise one push with the marker of the returned record. *)
Theorem pushed_record_is_the_baseline (s : State) (k : nat)
    (filePath read : string) (file data : Template) :
  exited s = false → isShuttingDown s = false →
  tasks s !! k = Some (AwaitPatch filePath (relativePath_of filePath) file) →
  id data ≠ 0 → disk s !! filePath = Some read →
  ∃ s', run s [Settle k (Resolved (DTemplate data)); Change filePath;
               Tick DEBOUNCE_DELAY; Fire (fresh s)] = Some s' ∧
    fileMap s' !! relativePath_of filePath = Some data ∧
    calls s' = calls s ++ pushes data read.
Proof.
  intros Hexit Hflag Htask Hid Hread.
  set (s1 := s |> with_tasks (delete k (tasks s))
               |> with_fileMap (<[relativePath_of filePath := data]> (fileMap s))
               |> emit (LogUpdated (relativePath_of filePath))
               |> forget (id file)).
  assert (step s (Settle k (Resolved (DTemplate data))) = Some s1) as H1.
  { unfold step. by rewrite Hexit, Htask. }
  set (s2 := s1 |> clearPending (id data)
                |> setTimeout filePath (relativePath_of filePath) data).
  assert (step s1 (Change filePath) = Some s2) as H2.
  { unfold step. change (exited s1) with (exited s). rewrite Hexit. f_equal.
    apply scheduleUpdate_known; [done | apply lookup_insert_eq | done]. }
  set (s3 := with_now (now s2 + DEBOUNCE_DELAY) s2).
  assert (step s2 (Tick DEBOUNCE_DELAY) = Some s3) as H3 by done.
  destruct (fire_due s3 (fresh s) (armed (now s) filePath data) read)
    as (s' & H4 & Hcalls & _ & Hmap & _).
  - unfold s3, s2. rewrite clearPending_eq. simpl. by rewrite Hexit.
  - unfold s3, s2. rewrite clearPending_eq. simpl. apply lookup_insert_eq.
  - unfold s3, s2. rewrite clearPending_eq. simpl. lia.
  - unfold s3, s2. rewrite clearPending_eq. simpl. exact Hread.
  - exists s'. split; [|split].
    + by rewrite (run_cons _ _ _ _ H1), (run_cons _ _ _ _ H2),
        (run_cons _ _ _ _ H3), (run_cons _ _ _ _ H4).
    + rewrite Hmap. unfold s3, s2. rewrite clearPending_eq. simpl.
      apply lookup_insert_eq.
    + rewrite Hcalls. unfold s3, s2. by rewrite clearPending_eq.
Qed.

(** When a push succeeds while a newer timer for the same record is
    armed, the entry of [pendingUpdates] that is deleted is the one of
    the newer timer: the next modified event finds nothing to cancel and
    arms a further timer, so that two timers are armed for the one
    record. *)
Theorem settled_push_forgets_newer_timer (s : State) (k h : nat)
    (filePath : string) (file data : Template) (tm : Timer) :
  exited s = false → isShuttingDown s = false → handles_fresh s →
  tasks s !! k = Some (AwaitPatch filePath (relativePath_of filePath) file) →
  pendingUpdates s !! id file = Some h → timers s !! h = Some tm →
  id data = id file → id data ≠ 0 →
  ∃ s', run s [Settle k (Resolved (DTemplate data)); Change filePath]
        = Some s' ∧
    timers s' !! h = Some tm ∧
    timers s' !! fresh s = Some (armed (now s) filePath data) ∧
    h ≠ fresh s.
Proof.
  intros Hexit Hflag Hfresh Htask Hpend Htm Hsame Hid.
  assert (h ≠ fresh s) as Hne.
  { intros ->. by rewrite Hfresh in Htm. }
  set (s1 := s |> with_tasks (delete k (tasks s))
               |> with_fileMap (<[relativePath_of filePath := data]> (fileMap s))
               |> emit (LogUpdated (relativePath_of filePath))
               |> forget (id file)).
  assert (step s (Settle k (Resolved (DTemplate data))) = Some s1) as H1.
  { unfold step. by rewrite Hexit, Htask. }
  set (s2 := s1 |> clearPending (id data)
                |> setTimeout filePath (relativePath_of filePath) data).
  assert (step s1 (Change filePath) = Some s2) as H2.
  { unfold step. change (exited s1) with (exited s). rewrite Hexit. f_equal.
    apply scheduleUpdate_known; [done | apply lookup_insert_eq | done]. }
  exists s2. split; [by rewrite (run_cons _ _ _ _ H1), (run_cons _ _ _ _ H2)|].
  unfold s2. rewrite clearPending_eq. simpl.
  rewrite Hsame, lookup_delete_eq.
  split; [by rewrite lookup_insert_ne|]. split; [apply lookup_insert_eq | done].
Qed.

(** ** Timers of other records *)

(** A modified event cancels at most the timer that [pendingUpdates]
    records for the id of its record: every other armed timer stays
    armed, and the entries of all other ids stay as they are. *)
Theorem other_timers_survive (s : State) (filePath : string)
    (file : Template) (h : nat) (tm : Timer) :
  handles_fresh s →
  fileMap s !! relativePath_of filePath = Some file →
  timers s !! h = Some tm → pendingUpdates s !! id file ≠ Some h →
  ∃ s', step s (Change filePath) = Some s' ∧
    timers s' !! h = Some tm ∧
    ∀ i, i ≠ id file → pendingUpdates s' !! i = pendingUpdates s !! i.
Proof.
  intros Hfresh Hfile Htm Hother.
  assert (h ≠ fresh s) as Hne.
  { intros ->. by rewrite Hfresh in Htm. }
  unfold step, scheduleUpdate. rewrite Hfile.
  destruct (exited s); [by eexists|].
  destruct (isShuttingDown s); [by eexists|].
  destruct (id file =? 0); [by eexists|].
  eexists. split; [done|]. simpl.
  rewrite clearPending_fresh, clearPending_pendingUpdates. split.
  - rewrite lookup_insert_ne by done. rewrite clearPending_timers.
    by case_decide.
  - intros i Hi. by rewrite lookup_insert_ne.
Qed.

(** ** A file that is gone when its timer fires *)

(** When the file of a due timer is no longer on the disk, nothing is
    pushed: an error is written and the record is fetched by the id that
    [fileMap] holds for the path.  When the fetch answers, the entry of
    [fileMap] is the fetched record, and the file is written anew with
    the fetched code; if no file can be written there any more (a
    directory has taken its place, or a file that of a parent), the disk
    stays as it is and a second error is written. *)
Theorem deleted_file_is_restored (s : State) (h : nat) (tm : Timer)
    (current fetched : Template) :
  exited s = false →
  timers s !! h = Some tm → deadline tm ≤ now s →
  disk s !! t_filePath tm = None →
  fileMap s !! relativePath_of (t_filePath tm) = Some current →
  ∃ s', run s [Fire h; Settle (fresh s) (Resolved (DTemplate fetched))]
        = Some s' ∧
    calls s' = calls s ++ [Get (id current)] ∧
    fileMap s' !! relativePath_of (t_filePath tm) = Some fetched ∧
    (writable (disk s) (dirs s) (t_filePath tm) = true →
     disk s' !! t_filePath tm = Some (code fetched) ∧
     ∃ error,
       console s'
       = console s ++ [ErrUpdating error;
                       LogRefreshed (relativePath_of (t_filePath tm))]) ∧
    (writable (disk s) (dirs s) (t_filePath tm) = false →
     disk s' = disk s ∧
     ∃ error error',
       console s'
       = console s ++ [ErrUpdating error; ErrRefreshing error']).
Proof.
  intros Hexit Htm Hdue Hgone Hcur.
  unfold run, step. rewrite Hexit, Htm.
  rewrite bool_decide_eq_true_2 by done.
  unfold onTimeout. simpl. rewrite Hgone.
  unfold refreshFile. simpl. rewrite Hcur. simpl. rewrite Hexit.
  rewrite lookup_insert_eq. simpl.
  unfold outputFile. simpl.
  destruct (writable (disk s) (dirs s) (t_filePath tm)); simpl.
  - eexists. split; [done|]. simpl.
    split; [done|]. split; [apply lookup_insert_eq|].
    split; [|done]. intros _. split; [apply lookup_insert_eq|].
    eexists. by rewrite <- (assoc_L (++)).
  - eexists. split; [done|]. simpl.
    split; [done|]. split; [apply lookup_insert_eq|].
    split; [done|]. intros _. split; [done|].
    do 2 eexists. by rewrite <- (assoc_L (++)).
Qed.

(** In a session, the refresh that follows a failed push or a vanished
    file always finds the record of the path: [fileMap] has an entry for
    it, and the fetch goes out with the id of that entry. *)
Theorem refresh_finds_its_record (s : State) :
  reachable s → exited s = false →
  (∀ k filePath relativePath file error,
     tasks s !! k = Some (AwaitPatch filePath relativePath file) →
     ∃ current s',
       fileMap s !! relativePath_of filePath = Some current ∧
       step s (Settle k (Rejected error)) = Some s' ∧
       calls s' = calls s ++ [Get (id current)]) ∧
  (∀ h tm,
     timers s !! h = Some tm → deadline tm ≤ now s →
     disk s !! t_filePath tm = None →
     ∃ current s',
       fileMap s !! relativePath_of (t_filePath tm) = Some current ∧
       step s (Fire h) = Some s' ∧
       calls s' = calls s ++ [Get (id current)]).
Proof.
  intros [_ [Htimers Htasks]]%reachable_invariants Hexit. split.
  - intros k filePath relativePath file error Htask.
    destruct (Htasks k _ Htask) as [-> [current Hcur]].
    exists current. eexists. split; [done|].
    unfold step. rewrite Hexit, Htask. simpl.
    unfold refreshFile. simpl. by rewrite Hcur.
  - intros h tm Htm Hdue Hgone.
    destruct (Htimers h tm Htm) as [Hrel [current Hcur]].
    rewrite Hrel in Hcur.
    exists current. eexists. split; [done|].
    unfold step. rewrite Hexit, Htm.
    rewrite bool_decide_eq_true_2 by done.
    unfold onTimeout. simpl. rewrite Hgone.
    unfold refreshFile. simpl. by rewrite Hcur.
Qed.

(** ** Provisioning: the other branches *)



(** When the file was moved to the canonical location and
    [path.relative] takes that location back to the declared path, the
    next modified event for the moved file arms a timer that closes over
    the fetched record.  The file is moved when it exists and the
    canonical location is free: no file and no directory is there, and
    a file can be written there. *)
Theorem renamed_file_is_synchronised (s : State) (k : nat)
    (filePath relativePath bytes : string) (template : Template) :
  exited s = false → isShuttingDown s = false →
  tasks s !! k = Some (AwaitCanonical filePath relativePath) →
  relativePath ≠ file_path template →
  disk s !! filePath = Some bytes →
  disk s !! path_join VIEWS_DIR (file_path template) = None →
  writable (disk s) (dirs s) (path_join VIEWS_DIR (file_path template))
  = true →
  path_relative VIEWS_DIR (path_join VIEWS_DIR (file_path template))
  = file_path template →
  id template ≠ 0 →
  let newPath := path_join VIEWS_DIR (file_path template) in
  ∃ s', run s [Settle k (Resolved (DTemplate template)); Change newPath]
        = Some s' ∧
    disk s' !! newPath = Some bytes ∧
    pendingUpdates s' !! id template = Some (fresh s) ∧
    timers s' !! fresh s = Some (armed (now s) newPath template).
Proof.
  intros Hexit Hflag Htask Hne Hsrc Hdest Hfree Hback Hid newPath.
  set (s1 := with_tasks (delete k (tasks s)) s
               |> unwatch newPath
               |> left_behind filePath
               |> with_disk (<[newPath := bytes]> (delete filePath (disk s)))
               |> watcher_add newPath
               |> emit (LogRenamed relativePath (file_path template))
               |> createSchema_record template).
  assert (step s (Settle k (Resolved (DTemplate template))) = Some s1) as H1.
  { unfold step. rewrite Hexit, Htask. simpl.
    rewrite (proj2 (String.eqb_neq _ _) Hne).
    unfold createSchema_rename. simpl.
    by rewrite (move_Normal _ _ bytes). }
  assert (relativePath_of newPath = slashes (file_path template)) as Hrel.
  { unfold relativePath_of, newPath. by rewrite Hback. }
  set (s2 := s1 |> clearPending (id template)
                |> setTimeout newPath (relativePath_of newPath) template).
  assert (step s1 (Change newPath) = Some s2) as H2.
  { unfold step. change (exited s1) with (exited s). rewrite Hexit. f_equal.
    apply scheduleUpdate_known; [done | | done].
    rewrite Hrel. apply lookup_insert_eq. }
  exists s2. split; [by rewrite (run_cons _ _ _ _ H1), (run_cons _ _ _ _ H2)|].
  unfold s2. rewrite clearPending_eq. simpl.
  split; [apply lookup_insert_eq|]. split; apply lookup_insert_eq.
Qed.

(** ** Snapshot and teardown *)

(** A session that fetches a listing and is then shut down leaves the
    files as they were before, without the workspace: provided every
    record and AGENT.md are written inside the workspace root, every
    file that the snapshot wrote is removed again and no other file has
    changed, also when the snapshot ended with an error. *)
Theorem teardown_undoes_snapshot (d : gmap string string) (ds : gset string)
    (data : list Template) :
  (∀ file, file ∈ data →
     inside VIEWS_DIR (path_join VIEWS_DIR (file_path file)) = true) →
  inside VIEWS_DIR (path_join VIEWS_DIR "AGENT.md") = true →
  ∃ s0 s', fetchFiles (Resolved (DListing data)) (boot d ds) = Some s0 ∧
    run s0 [Interrupt; Settle 0%nat (Resolved DNone)] = Some s' ∧
    exited s' = true ∧ disk s' = remove VIEWS_DIR d.
Proof.
  intros Hinside Hagent.
  destruct (fetchFiles_listing d ds data)
    as (s0 & done & Hfetch & Hpre & _ & Hend).
  destruct (fetchFiles_starts_idle _ _ _ _ Hfetch)
    as (_ & Htasks & _ & Hfresh & _ & Hflag & Hexit).
  exists s0. eexists. split; [done|].
  unfold run, step, handleExit. rewrite Hexit, Hflag. simpl.
  rewrite Hexit, Hfresh, lookup_insert_eq. simpl.
  split; [done|]. split; [done|].
  apply map_eq. intros p. simpl. rewrite !remove_lookup.
  destruct (inside VIEWS_DIR p) eqn:Hp; [done|].
  assert (fill (λ f, path_join VIEWS_DIR (file_path f)) code d
            (filter (λ file, Is_true (declares file)) done) !! p = d !! p)
    as Hrest.
  { apply fill_lookup_notin.
    intros (file & -> & [_ Hin]%list_elem_of_filter)%list_elem_of_fmap.
    assert (file ∈ data) as Hdata.
    { destruct Hpre as [rest ->]. apply elem_of_app. by left. }
    specialize (Hinside file Hdata). congruence. }
  destruct Hend as [(-> & _) | [(_ & -> & _) | (_ & -> & _)]]; try done.
  rewrite lookup_insert_ne by (intros <-; congruence). done.
Qed.

End MoreOfTheCore.

(** ** The base URL and the editor menu *)

Section Startup.
Context {builtins : Builtins}.

(** An environment name that the table of base URLs does not hold
    selects the production URL, whatever the token or [--env] said,
    unless it names a property that every object inherits: then the
    client is given that property, which is no URL. *)
Theorem unknown_environment_is_production (inherited : string → bool)
    (AUTH_TOKEN : string) (options_env : option string) :
  let name := ENV AUTH_TOKEN options_env in
  name ≠ "localhost" → name ≠ "development" → name ≠ "production" →
  API_BASE_URL inherited name =
    if inherited name then Inherited
    else Url "https://app.sleekcms.com/api/template".
Proof.
  intros name H1 H2 H3. unfold API_BASE_URL, API_BASE_URLS.
  apply String.eqb_neq in H1, H2, H3. rewrite H1, H2, H3.
  by destruct (inherited name).
Qed.

(** The editor menu opens only an editor that was found on the
    machine, and only for its own key; with no editor found nothing is
    asked, so that no answer quits or opens anything. *)
Theorem menu_opens_only_found_editors (commandExists : string → bool)
    (answer : string) :
  (∀ e, showEditorMenu commandExists answer = Launch e →
        commandExists (cmd e) = true ∧ key e = trim answer
        ∧ toLowerCase (trim answer) ≠ "x")
  ∧ (commandExists "code" = false → commandExists "cursor" = false →
     showEditorMenu commandExists answer = NoMenu).
Proof.
  split.
  - intros e. unfold showEditorMenu, editors.
    destruct (commandExists "code") eqn:Hcode,
             (commandExists "cursor") eqn:Hcursor; simpl; try done.
    all: destruct (String.eqb (toLowerCase (trim answer)) "x") eqn:Hx;
      [done|apply String.eqb_neq in Hx].
    all: repeat (case_match; simplify_eq; simpl in * );
      try match goal with H : String.eqb _ _ = true |- _ =>
            apply String.eqb_eq in H end; try done.
    all: by intros [= <-].
  - intros Hcode Hcursor. unfold showEditorMenu, editors.
    by rewrite Hcode, Hcursor.
Qed.
End Startup.

(** ** The further properties on the concrete session *)

Section MoreOnTheSession.
Local Existing Instance plain_session.

Lemma session_reaches (es : list Event) (s : State) :
  run session es = Some s → reachable s.
Proof.
  intros Hrun. exists ∅, ∅, (Resolved (DListing [page])), session, es.
  split; [vm_compute; reflexivity | exact Hrun].
Qed.

Lemma failed_listing_leaves_nothing_witness :
  fileMap (default offline (run offline idling)) = ∅ ∧
  calls (default offline (run offline idling)) = [GetAll] ∧
  timers (default offline (run offline idling)) = ∅.
Proof.
  destruct (failed_listing_leaves_nothing ∅ ∅ "ETIMEDOUT" idling offline
              (default offline (run offline idling)))
    as (_ & _ & Hmap & Hcalls & Htimers & _).
  - vm_compute; reflexivity.
  - repeat constructor; discriminate.
  - vm_compute; reflexivity.
  - split; [exact Hmap|]. split; [exact Hcalls | exact Htimers].
Defined.

Lemma entries_are_never_deleted_witness :
  is_Some (fileMap (after [Interrupt; Settle 0%nat (Resolved DNone)])
           !! "a.ejs").
Proof.
  apply (entries_are_never_deleted session
           (after [Interrupt; Settle 0%nat (Resolved DNone)])
           [Interrupt; Settle 0%nat (Resolved DNone)] "a.ejs").
  - vm_compute; reflexivity.
  - exists page. vm_compute; reflexivity.
Defined.

Lemma shutdown_starts_nothing_witness :
  isShuttingDown
    (after [Interrupt; Save "/w/new.ejs" "x"; Add "/w/new.ejs";
            Save "/w/a.ejs" "b"; Change "/w/a.ejs"]) = true ∧
  ∃ sent,
    calls (after [Interrupt; Save "/w/new.ejs" "x"; Add "/w/new.ejs";
                  Save "/w/a.ejs" "b"; Change "/w/a.ejs"])
    = calls (after [Interrupt]) ++ sent ∧
    Forall (λ c, ∀ p, c ≠ PostCli p) sent.
Proof.
  destruct (shutdown_starts_nothing (after [Interrupt])
              (after [Interrupt; Save "/w/new.ejs" "x"; Add "/w/new.ejs";
                      Save "/w/a.ejs" "b"; Change "/w/a.ejs"])
              [Save "/w/new.ejs" "x"; Add "/w/new.ejs";
               Save "/w/a.ejs" "b"; Change "/w/a.ejs"])
    as (Hflag & _ & Hsent).
  - vm_compute; reflexivity.
  - vm_compute; reflexivity.
  - split; [exact Hflag | exact Hsent].
Defined.

Lemma pushes_are_well_formed_witness :
  Forall well_formed (calls (after empty)).
Proof.
  apply (pushes_are_well_formed (after empty)).
  apply (session_reaches empty). vm_compute; reflexivity.
Defined.

Lemma keys_are_normalised_witness :
  String.get 1 "x/y" ≠ Some "\"%char.
Proof.
  apply (keys_are_normalised separators "x/y").
  - exists ∅, ∅, (Resolved (DListing listing)), separators, [].
    split; vm_compute; reflexivity.
  - exists {| id := 3; file_path := "x/y"; code := "r"; updated_at := "u3" |}.
    vm_compute; reflexivity.
Defined.

Lemma pushed_record_is_the_baseline_witness :
  ∃ s', run pushing [Settle 1%nat (Resolved (DTemplate page_pushed));
                     Change "/w/a.ejs"; Tick DEBOUNCE_DELAY;
                     Fire (fresh pushing)] = Some s' ∧
    fileMap s' !! relativePath_of "/w/a.ejs" = Some page_pushed ∧
    calls s' = calls pushing ++ pushes page_pushed "b".
Proof.
  apply (pushed_record_is_the_baseline pushing 1%nat "/w/a.ejs" "b" page
           page_pushed).
  - vm_compute; reflexivity.
  - vm_compute; reflexivity.
  - vm_compute; reflexivity.
  - discriminate.
  - vm_compute; reflexivity.
Defined.

Lemma settled_push_forgets_newer_timer_witness :
  ∃ s', run racing [Settle 1%nat (Resolved (DTemplate page_pushed));
                    Change "/w/a.ejs"] = Some s' ∧
    timers s' !! 2%nat = Some (armed 1000 "/w/a.ejs" page) ∧
    timers s' !! fresh racing = Some (armed (now racing) "/w/a.ejs" page_pushed) ∧
    2%nat ≠ fresh racing.
Proof.
  apply (settled_push_forgets_newer_timer racing 1%nat 2%nat "/w/a.ejs" page
           page_pushed (armed 1000 "/w/a.ejs" page)).
  - vm_compute; reflexivity.
  - vm_compute; reflexivity.
  - apply reachable_invariants.
    apply (session_reaches
             [Save "/w/a.ejs" "b"; Change "/w/a.ejs"; Tick 1000; Fire 0%nat;
              Save "/w/a.ejs" "c"; Change "/w/a.ejs"]).
    vm_compute; reflexivity.
  - vm_compute; reflexivity.
  - vm_compute; reflexivity.
  - vm_compute; reflexivity.
  - reflexivity.
  - discriminate.
Defined.

Lemma other_timers_survive_witness :
  ∃ s', step two_files (Change "/w/views/new.ejs") = Some s' ∧
    timers s' !! 0%nat = Some (armed 0 "/w/a.ejs" page) ∧
    ∀ i, i ≠ id canonical →
      pendingUpdates s' !! i = pendingUpdates two_files !! i.
Proof.
  apply (other_timers_survive two_files "/w/views/new.ejs" canonical 0%nat
           (armed 0 "/w/a.ejs" page)).
  - apply reachable_invariants.
    exists ∅, ∅, (Resolved (DListing [page; canonical])),
      (default (boot ∅ ∅)
         (fetchFiles (Resolved (DListing [page; canonical])) (boot ∅ ∅))),
      [Save "/w/a.ejs" "b"; Change "/w/a.ejs"].
    split; vm_compute; reflexivity.
  - vm_compute; reflexivity.
  - vm_compute; reflexivity.
  - vm_compute. discriminate.
Defined.

Lemma deleted_file_is_restored_witness :
  ∃ s', run gone [Fire 1%nat;
                  Settle (fresh gone) (Resolved (DTemplate page_pushed))]
        = Some s' ∧
    calls s' = calls gone ++ [Get (id page)] ∧
    fileMap s' !! relativePath_of "/w/a.ejs" = Some page_pushed ∧
    disk s' !! "/w/a.ejs" = Some (code page_pushed).
Proof.
  destruct (deleted_file_is_restored gone 1%nat (armed 0 "/w/a.ejs" page)
              page page_pushed)
    as (s' & Hrun & Hcalls & Hmap & Hwritten & _).
  - vm_compute; reflexivity.
  - vm_compute; reflexivity.
  - vm_compute. discriminate.
  - vm_compute; reflexivity.
  - vm_compute; reflexivity.
  - exists s'. split; [exact Hrun|]. split; [exact Hcalls|].
    split; [exact Hmap|]. apply Hwritten. vm_compute; reflexivity.
Defined.

Lemma refresh_finds_its_record_witness :
  (∃ current s',
     fileMap pushing !! relativePath_of "/w/a.ejs" = Some current ∧
     step pushing (Settle 1%nat (Rejected "409")) = Some s' ∧
     calls s' = calls pushing ++ [Get (id current)]) ∧
  (∃ current s',
     fileMap gone !! relativePath_of "/w/a.ejs" = Some current ∧
     step gone (Fire 1%nat) = Some s' ∧
     calls s' = calls gone ++ [Get (id current)]).
Proof.
  assert (Hpushing : reachable pushing).
  { apply (session_reaches
             [Save "/w/a.ejs" "b"; Change "/w/a.ejs"; Tick 1000; Fire 0%nat]).
    vm_compute; reflexivity. }
  assert (Hgone : reachable gone).
  { apply (session_reaches
             [Save "/w/a.ejs" "fresh"; Add "/w/a.ejs"; Change "/w/a.ejs";
              Settle 0%nat (Rejected "500"); Tick 1000]).
    vm_compute; reflexivity. }
  assert (Hpushing_on : exited pushing = false) by (vm_compute; reflexivity).
  assert (Hgone_on : exited gone = false) by (vm_compute; reflexivity).
  split.
  - apply (proj1 (refresh_finds_its_record pushing Hpushing Hpushing_on)
             1%nat "/w/a.ejs" "a.ejs" page "409").
    vm_compute; reflexivity.
  - apply (proj2 (refresh_finds_its_record gone Hgone Hgone_on)
             1%nat (armed 0 "/w/a.ejs" page)).
    + vm_compute; reflexivity.
    + vm_compute. discriminate.
    + vm_compute; reflexivity.
Defined.


Lemma renamed_file_is_synchronised_witness :
  ∃ s', run provisioning
          [Settle 1%nat (Resolved (DTemplate canonical));
           Change (path_join VIEWS_DIR (file_path canonical))] = Some s' ∧
    disk s' !! path_join VIEWS_DIR (file_path canonical) = Some "hello" ∧
    pendingUpdates s' !! id canonical = Some (fresh provisioning) ∧
    timers s' !! fresh provisioning
    = Some (armed (now provisioning)
              (path_join VIEWS_DIR (file_path canonical)) canonical).
Proof.
  apply (renamed_file_is_synchronised provisioning 1%nat "/w/new.ejs"
           "new.ejs" "hello" canonical).
  - vm_compute; reflexivity.
  - vm_compute; reflexivity.
  - vm_compute; reflexivity.
  - discriminate.
  - vm_compute; reflexivity.
  - vm_compute; reflexivity.
  - vm_compute; reflexivity.
  - vm_compute; reflexivity.
  - discriminate.
Defined.

Lemma teardown_undoes_snapshot_witness :
  ∃ s0 s',
    fetchFiles (Resolved (DListing [page; canonical])) (boot used_disk ∅)
    = Some s0 ∧
    run s0 [Interrupt; Settle 0%nat (Resolved DNone)] = Some s' ∧
    exited s' = true ∧ disk s' = remove VIEWS_DIR used_disk.
Proof.
  apply (teardown_undoes_snapshot used_disk ∅ [page; canonical]).
  - intros file Hin. apply elem_of_cons in Hin as [-> | Hin].
    + vm_compute; reflexivity.
    + apply list_elem_of_singleton in Hin as ->. vm_compute; reflexivity.
  - vm_compute; reflexivity.
Defined.
End MoreOnTheSession.

Lemma unknown_environment_is_production_witness :
  @API_BASE_URL (λ _, false) (@ENV ascii_builtins "abc-x-Staging" None)
  = Url "https://app.sleekcms.com/api/template" ∧
  @API_BASE_URL (String.eqb "constructor")
    (@ENV ascii_builtins "abc" (Some "Constructor"))
  = Inherited.
Proof.
  split.
  - apply (@unknown_environment_is_production ascii_builtins (λ _, false)
             "abc-x-Staging" None); vm_compute; discriminate.
  - apply (@unknown_environment_is_production ascii_builtins
             (String.eqb "constructor") "abc" (Some "Constructor"));
      vm_compute; discriminate.
Defined.
